(** * Chaty backend: ingestion, retrieval, chat streaming and sessions

    A shallow embedding of [backend/app/rag/ingest.py],
    [backend/app/rag/chain.py], [backend/app/main.py] (the [/chat] event
    stream) and [backend/app/sessions.py].

    External collaborators (the SHA-256 digest, the text extractor, the
    recursive text splitter, the Chroma collection's failures, BM25 ranking
    and the chat model's token stream) are parameters; everything the
    Python code decides itself is written out. *)

From Stdlib Require Import String Ascii ZArith Floats.
From stdpp Require Import base gmap sets list strings.

Local Open Scope string_scope.
Local Open Scope list_scope.

(* ------------------------------------------------------------------ *)
(** ** Exceptions raised by the OpenAI / Chroma clients *)

(** The exception classes the code inspects.  [OtherError] is any other
    exception, with the value of its optional [status_code] attribute. *)
Inductive exc :=
  | AuthenticationError
  | APIStatusError (status_code : Z)
  | APIConnectionError
  | ValueError (msg : string)
  | OtherError (status_code : option Z).

Definition status_is_auth (c : Z) : bool := Z.eqb c 401 || Z.eqb c 403.

(** [_is_embedding_auth_error] (ingest.py and chain.py have the same body). *)
Definition _is_embedding_auth_error (e : exc) : bool :=
  match e with
  | AuthenticationError => true
  | APIStatusError c => status_is_auth c
  | APIConnectionError => false
  | ValueError _ => false
  | OtherError (Some c) => status_is_auth c
  | OtherError None => false
  end.

(* ------------------------------------------------------------------ *)
(** ** Strings the code formats *)

Definition hex_digit (n : nat) : ascii :=
  match n with
  | 0 => "0" | 1 => "1" | 2 => "2" | 3 => "3" | 4 => "4" | 5 => "5"
  | 6 => "6" | 7 => "7" | 8 => "8" | 9 => "9" | 10 => "a" | 11 => "b"
  | 12 => "c" | 13 => "d" | 14 => "e" | _ => "f"
  end%char.

(** [hashlib]'s [hexdigest]: two lowercase hex digits per digest byte. *)
Fixpoint hexdigest (d : list Byte.byte) : string :=
  match d with
  | [] => EmptyString
  | b :: d' =>
      let n := Byte.to_nat b in
      String (hex_digit (n / 16)) (String (hex_digit (n mod 16)) (hexdigest d'))
  end.

Fixpoint uint_to_string (d : Decimal.uint) : string :=
  match d with
  | Decimal.Nil => EmptyString
  | Decimal.D0 d => String "0" (uint_to_string d)
  | Decimal.D1 d => String "1" (uint_to_string d)
  | Decimal.D2 d => String "2" (uint_to_string d)
  | Decimal.D3 d => String "3" (uint_to_string d)
  | Decimal.D4 d => String "4" (uint_to_string d)
  | Decimal.D5 d => String "5" (uint_to_string d)
  | Decimal.D6 d => String "6" (uint_to_string d)
  | Decimal.D7 d => String "7" (uint_to_string d)
  | Decimal.D8 d => String "8" (uint_to_string d)
  | Decimal.D9 d => String "9" (uint_to_string d)
  end.

(** Python's [str(n)] on a non-negative int. *)
Definition str_int (n : nat) : string := uint_to_string (Nat.to_uint n).

(** Python text as its code points. *)
Definition pystr := list Z.

(** [str.isspace] on one code point: the characters of Unicode category
    [Zs] or bidirectional class [WS], [B] or [S]. *)
Definition py_isspace (c : Z) : bool :=
  (Z.leb 9 c && Z.leb c 13) || (Z.leb 28 c && Z.leb c 32) || Z.eqb c 133 || Z.eqb c 160 ||
  Z.eqb c 5760 || (Z.leb 8192 c && Z.leb c 8202) || Z.eqb c 8232 || Z.eqb c 8233 ||
  Z.eqb c 8239 || Z.eqb c 8287 || Z.eqb c 12288.

(** A [string] of the model holds the UTF-8 encoding of a Python [str]
    (file text is read with [read_text(encoding="utf-8")], so it is
    well formed).  [utf8_decode] gives back its code points; a byte that
    does not start a complete sequence is kept as it is. *)
Definition byte_val (c : ascii) : Z := Z.of_nat (nat_of_ascii c).

Definition cont_val (c : ascii) : Z := (byte_val c - 128)%Z.

Fixpoint utf8_decode (s : string) : pystr :=
  match s with
  | EmptyString => []
  | String c s1 =>
      let b := byte_val c in
      if Z.ltb b 192 then b :: utf8_decode s1
      else if Z.ltb b 224 then
        match s1 with
        | String c1 s2 => ((b - 192) * 64 + cont_val c1)%Z :: utf8_decode s2
        | EmptyString => [b]
        end
      else if Z.ltb b 240 then
        match s1 with
        | String c1 (String c2 s3) =>
            (((b - 224) * 64 + cont_val c1) * 64 + cont_val c2)%Z :: utf8_decode s3
        | _ => b :: utf8_decode s1
        end
      else
        match s1 with
        | String c1 (String c2 (String c3 s4)) =>
            ((((b - 240) * 64 + cont_val c1) * 64 + cont_val c2) * 64 + cont_val c3)%Z
              :: utf8_decode s4
        | _ => b :: utf8_decode s1
        end
  end.

(** A continuation byte [10xxxxxx]: it does not start a code point. *)
Definition is_cont (c : ascii) : bool := Z.leb 128 (byte_val c) && Z.ltb (byte_val c) 192.

(** Well-formed UTF-8: each lead byte is followed by as many continuation
    bytes as it announces. *)
Fixpoint utf8_wf (s : string) : bool :=
  match s with
  | EmptyString => true
  | String c s1 =>
      let b := byte_val c in
      if Z.ltb b 128 then utf8_wf s1
      else if Z.ltb b 192 then false
      else if Z.ltb b 224 then
        match s1 with
        | String c1 s2 => is_cont c1 && utf8_wf s2
        | EmptyString => false
        end
      else if Z.ltb b 240 then
        match s1 with
        | String c1 (String c2 s3) => is_cont c1 && is_cont c2 && utf8_wf s3
        | _ => false
        end
      else if Z.ltb b 248 then
        match s1 with
        | String c1 (String c2 (String c3 s4)) =>
            is_cont c1 && is_cont c2 && is_cont c3 && utf8_wf s4
        | _ => false
        end
      else false
  end.

(** [s[:n]] on the encoded text: the first [n] code points, i.e. the
    bytes up to the [n+1]-th byte that starts a code point. *)
Fixpoint utf8_take (n : nat) (s : string) : string :=
  match s with
  | EmptyString => EmptyString
  | String c s' =>
      if is_cont c then String c (utf8_take n s')
      else match n with
           | O => EmptyString
           | S n' => String c (utf8_take n' s')
           end
  end.

(** [not text.strip()]: every code point of [text] is whitespace. *)
Definition is_blank (text : string) : bool := forallb py_isspace (utf8_decode text).

(** ["\u3000"] (ideographic space) and ["\u00a0 \n"] are blank; ["\u00e9"] is not. *)
Example is_blank_ex :
  is_blank (String (ascii_of_nat 227) (String (ascii_of_nat 128) (String (ascii_of_nat 128) ""))) = true /\
  is_blank (String (ascii_of_nat 194) (String (ascii_of_nat 160) (String " " (String "010" "")))) = true /\
  is_blank (String (ascii_of_nat 195) (String (ascii_of_nat 169) "")) = false.
Proof. vm_compute. repeat split. Qed.

(** [f"{rel_path}:{file_hash}:{index}"] *)
Definition doc_id (rel_path file_hash : string) (index : nat) : string :=
  rel_path +:+ ":" +:+ file_hash +:+ ":" +:+ str_int index.

Example doc_id_ex : doc_id "ingest/a.txt" (hexdigest [Byte.x0a; Byte.xff]) 12
                    = "ingest/a.txt:0aff:12".
Proof. reflexivity. Qed.

(* ------------------------------------------------------------------ *)
(** ** Ingestion: data model *)

(** A file found by [_iter_ingest_files]: its POSIX path relative to the
    project root and its raw bytes. *)
Record source_file := {
  sf_rel_path : string;
  sf_bytes : list Byte.byte
}.

(** A manifest entry [{"sha256": ..., "doc_ids": [...]}]. *)
Record entry := {
  e_sha256 : string;
  e_doc_ids : list string
}.

(** A chunk-store record [{"page_content", "file_sha256", "chunk_index"}]. *)
Record chunk_rec := {
  c_page_content : string;
  c_file_sha256 : string;
  c_chunk_index : nat
}.

(** The Chroma calls [ingest_documents] makes, by their [ids] argument. *)
Inductive vs_call :=
  | CallGet (ids : list string)
  | CallDelete (ids : list string)
  | CallAdd (ids : list string).

(** The collaborators of [ingest_documents]:
    - [env_sha256]: the SHA-256 digest of a byte string ([_sha256_file]
      feeds the file to [hashlib] in 1 MiB pieces, which digests the
      whole content);
    - [env_extract]: [_extract_file_text], [None] when it raises;
    - [env_split]: [RecursiveCharacterTextSplitter.split_text];
    - [env_fault]: the exception a Chroma call raises, if any (an
      [add_documents] call embeds through OpenAI, so it is where a
      401/403 shows up). *)
Record ingest_env := {
  env_sha256 : list Byte.byte -> list Byte.byte;
  env_extract : source_file -> option string;
  env_split : string -> list string;
  env_fault : vs_call -> option exc
}.

(** The Vector Index is modelled by the set of ids it stores. *)
Abbreviation vstore := (gset string).

(** The locals of [ingest_documents] plus the vector store. *)
Record ingest_state := {
  st_vs : vstore;
  st_tracked : gmap string entry;
  st_chunks : gmap string (list chunk_rec);
  st_indexed : list string;
  st_skipped : list string;
  st_total : nat;
  st_discovered : gset string;
  st_can_embed : bool
}.

Section Ingest.
Variable E : ingest_env.

Definition vs_delete (vs : vstore) (ids : list string) : vstore :=
  vs ∖ list_to_set ids.

(** Chroma's [add_documents] upserts the given ids. *)
Definition vs_add (vs : vstore) (ids : list string) : vstore :=
  vs ∪ list_to_set ids.

(** [_has_persisted_vectors]: [vectorstore.get(ids=sample)] returns the
    sampled ids that are stored; any exception counts as [False]. *)
Definition _has_persisted_vectors (vs : vstore) (doc_ids : list string) : bool :=
  match doc_ids with
  | [] => false
  | _ =>
      let sample_ids := take (Nat.min 3 (length doc_ids)) doc_ids in
      match env_fault E (CallGet sample_ids) with
      | Some _ => false
      | None => existsb (fun i => bool_decide (i ∈ vs)) sample_ids
      end
  end.

(** [_sha256_file] *)
Definition _sha256_file (f : source_file) : string :=
  hexdigest (env_sha256 E (sf_bytes f)).

(** The [try] body at lines 184-188: delete the previous ids (if any),
    then add the new documents.  Returns the store after the calls that
    completed and the exception raised, if any. *)
Definition embed_attempt (vs : vstore) (previous_ids doc_ids : list string)
  : vstore * option exc :=
  let '(vs1, err1) :=
    match previous_ids with
    | [] => (vs, None)
    | _ => match env_fault E (CallDelete previous_ids) with
           | Some e => (vs, Some e)
           | None => (vs_delete vs previous_ids, None)
           end
    end in
  match err1 with
  | Some e => (vs1, Some e)
  | None => match env_fault E (CallAdd doc_ids) with
            | Some e => (vs1, Some e)
            | None => (vs_add vs1 doc_ids, None)
            end
  end.

Definition make_doc_ids (rel_path file_hash : string) (chunks : list string) : list string :=
  imap (fun index _ => doc_id rel_path file_hash index) chunks.

Definition make_chunk_recs (file_hash : string) (chunks : list string) : list chunk_rec :=
  imap (fun index chunk =>
          {| c_page_content := chunk; c_file_sha256 := file_hash; c_chunk_index := index |})
       chunks.

(** Record updates used by the loop body. *)
Definition set_vs (st : ingest_state) (vs : vstore) : ingest_state :=
  {| st_vs := vs; st_tracked := st_tracked st; st_chunks := st_chunks st;
     st_indexed := st_indexed st; st_skipped := st_skipped st; st_total := st_total st;
     st_discovered := st_discovered st; st_can_embed := st_can_embed st |}.

Definition disable_embeddings (st : ingest_state) : ingest_state :=
  {| st_vs := st_vs st; st_tracked := st_tracked st; st_chunks := st_chunks st;
     st_indexed := st_indexed st; st_skipped := st_skipped st; st_total := st_total st;
     st_discovered := st_discovered st; st_can_embed := false |}.

Definition discover (st : ingest_state) (rel : string) : ingest_state :=
  {| st_vs := st_vs st; st_tracked := st_tracked st; st_chunks := st_chunks st;
     st_indexed := st_indexed st; st_skipped := st_skipped st; st_total := st_total st;
     st_discovered := {[rel]} ∪ st_discovered st; st_can_embed := st_can_embed st |}.

(** [skipped_files.append(rel)], optionally with
    [tracked_files[rel] = e] and [chunk_store[rel] = cs]. *)
Definition mark_skipped (st : ingest_state) (rel : string)
    (e : option entry) (cs : option (list chunk_rec)) : ingest_state :=
  {| st_vs := st_vs st;
     st_tracked := match e with Some e => <[rel := e]> (st_tracked st) | None => st_tracked st end;
     st_chunks := match cs with Some cs => <[rel := cs]> (st_chunks st) | None => st_chunks st end;
     st_indexed := st_indexed st; st_skipped := st_skipped st ++ [rel];
     st_total := st_total st; st_discovered := st_discovered st;
     st_can_embed := st_can_embed st |}.

Definition store_chunks (st : ingest_state) (rel : string) (cs : list chunk_rec) : ingest_state :=
  {| st_vs := st_vs st; st_tracked := st_tracked st; st_chunks := <[rel := cs]> (st_chunks st);
     st_indexed := st_indexed st; st_skipped := st_skipped st; st_total := st_total st;
     st_discovered := st_discovered st; st_can_embed := st_can_embed st |}.

(** Lines 200-202. *)
Definition finish_file (st : ingest_state) (rel file_hash : string)
    (persisted_ids : list string) (n : nat) : ingest_state :=
  {| st_vs := st_vs st;
     st_tracked := <[rel := {| e_sha256 := file_hash; e_doc_ids := persisted_ids |}]> (st_tracked st);
     st_chunks := st_chunks st; st_indexed := st_indexed st ++ [rel];
     st_skipped := st_skipped st; st_total := st_total st + n;
     st_discovered := st_discovered st; st_can_embed := st_can_embed st |}.

(** Lines 150-202, once the text was extracted. *)
Definition process_text (st : ingest_state) (rel file_hash : string)
    (previous_ids : list string) (text : string) : ingest_state * option exc :=
  if is_blank text then
    (mark_skipped st rel (Some {| e_sha256 := file_hash; e_doc_ids := [] |}) (Some []), None)
  else
    let chunks := env_split E text in
    let doc_ids := make_doc_ids rel file_hash chunks in
    let st1 := store_chunks st rel (make_chunk_recs file_hash chunks) in
    let n := length chunks in
    if negb (bool_decide (chunks = [])) && st_can_embed st1 then
      match embed_attempt (st_vs st1) previous_ids doc_ids with
      | (vs', None) => (finish_file (set_vs st1 vs') rel file_hash doc_ids n, None)
      | (vs', Some e) =>
          if _is_embedding_auth_error e
          then (finish_file (disable_embeddings (set_vs st1 vs')) rel file_hash previous_ids n, None)
          else (set_vs st1 vs', Some e)
      end
    else (finish_file st1 rel file_hash previous_ids n, None).

(** The skip decision of line 138, from the manifest and the store. *)
Definition skip_unchanged (force : bool) (tracked : gmap string entry) (vs : vstore)
    (rel file_hash : string) : bool :=
  let previous := tracked !! rel in
  let previous_ids := default [] (e_doc_ids <$> previous) in
  negb force && bool_decide ((e_sha256 <$> previous) = Some file_hash)
  && _has_persisted_vectors vs previous_ids.

(** Lines 142-202: extract the text, then handle it. *)
Definition extract_and_process (st : ingest_state) (f : source_file) : ingest_state * option exc :=
  let rel := sf_rel_path f in
  let file_hash := _sha256_file f in
  let previous_ids := default [] (e_doc_ids <$> (st_tracked st !! rel)) in
  match env_extract E f with
  | None => (mark_skipped st rel (Some {| e_sha256 := file_hash; e_doc_ids := previous_ids |}) None, None)
  | Some text => process_text st rel file_hash previous_ids text
  end.

(** One iteration of the [for file_path in _iter_ingest_files()] loop. *)
Definition ingest_file (force : bool) (st0 : ingest_state) (f : source_file)
  : ingest_state * option exc :=
  let rel := sf_rel_path f in
  let st := discover st0 rel in
  if skip_unchanged force (st_tracked st) (st_vs st) rel (_sha256_file f)
  then (mark_skipped st rel None None, None)
  else extract_and_process st f.

(** The loop; an exception leaves it at once. *)
Fixpoint ingest_loop (force : bool) (files : list source_file) (st : ingest_state)
  : ingest_state * option exc :=
  match files with
  | [] => (st, None)
  | f :: fs =>
      match ingest_file force st f with
      | (st', None) => ingest_loop force fs st'
      | (st', Some e) => (st', Some e)
      end
  end.

(** Lines 205-213, one stale path at a time; delete failures are ignored. *)
Fixpoint remove_stale (missing : list string) (st : ingest_state) : ingest_state :=
  match missing with
  | [] => st
  | p :: ps =>
      let stale_ids := default [] (e_doc_ids <$> (st_tracked st !! p)) in
      let vs' :=
        if negb (bool_decide (stale_ids = [])) && st_can_embed st then
          match env_fault E (CallDelete stale_ids) with
          | Some _ => st_vs st
          | None => vs_delete (st_vs st) stale_ids
          end
        else st_vs st in
      remove_stale ps
        {| st_vs := vs'; st_tracked := delete p (st_tracked st);
           st_chunks := delete p (st_chunks st);
           st_indexed := st_indexed st; st_skipped := st_skipped st;
           st_total := st_total st; st_discovered := st_discovered st;
           st_can_embed := st_can_embed st |}
  end.

(** [missing_paths] (line 204), in the manifest's key order. *)
Definition missing_paths (st : ingest_state) : list string :=
  filter (fun p => p ∉ st_discovered st) (map fst (map_to_list (st_tracked st))).

(** What is persisted between runs: the Chroma collection and the two
    JSON files. *)
Record persisted := {
  p_vs : vstore;
  p_manifest : gmap string entry;
  p_chunk_store : gmap string (list chunk_rec)
}.

Record ingest_response := {
  indexed_files : list string;
  skipped_files : list string;
  total_chunks_added : nat
}.

Definition initial_state (p : persisted) : ingest_state :=
  {| st_vs := p_vs p; st_tracked := p_manifest p; st_chunks := p_chunk_store p;
     st_indexed := []; st_skipped := []; st_total := 0; st_discovered := ∅;
     st_can_embed := true |}.

(** [ingest_documents(force)] over the result [files] of the directory
    scan (sorted, one entry per path).  On an exception the two JSON files
    are not rewritten, while the Chroma calls already made stay done. *)
Definition ingest_documents (force : bool) (files : list source_file) (p : persisted)
  : persisted * (ingest_response + exc) :=
  match ingest_loop force files (initial_state p) with
  | (st, Some e) =>
      ({| p_vs := st_vs st; p_manifest := p_manifest p; p_chunk_store := p_chunk_store p |},
       inr e)
  | (st, None) =>
      let st' := remove_stale (missing_paths st) st in
      ({| p_vs := st_vs st'; p_manifest := st_tracked st'; p_chunk_store := st_chunks st' |},
       inl {| indexed_files := st_indexed st'; skipped_files := st_skipped st';
              total_chunks_added := st_total st' |})
  end.

End Ingest.

(* ------------------------------------------------------------------ *)
(** ** Retrieval ([chain.py]) *)

(** A LangChain [Document] with the metadata [load_chunk_documents] sets. *)
Record Document := {
  page_content : string;
  md_source : string;
  md_file_sha256 : string;
  md_chunk_index : nat
}.

(** [load_chunk_documents]: every chunk of every file of the chunk store
    (the store is iterated in its key order). *)
Definition load_chunk_documents (store : gmap string (list chunk_rec)) : list Document :=
  concat (map (fun '(source, chunks) =>
                 map (fun c => {| page_content := c_page_content c; md_source := source;
                                  md_file_sha256 := c_file_sha256 c;
                                  md_chunk_index := c_chunk_index c |}) chunks)
              (map_to_list store)).

Section Retrieval.
(** [BM25Retriever.from_documents(documents)]: the corpus ranked by BM25
    score for the query, best first ([rank_bm25]'s [get_top_n] before its
    cut at [k]). *)
Variable bm25_rank : list Document -> string -> list Document.
(** [vectorstore.similarity_search_with_score(question, k=k)]: its
    results, or the exception it raises. *)
Variable similarity_search : string -> nat -> list (Document * float) + exc.

(** [_retrieve_with_bm25] *)
Definition _retrieve_with_bm25 (store : gmap string (list chunk_rec)) (question : string) (k : nat)
  : list (Document * float) :=
  let documents := load_chunk_documents store in
  match documents with
  | [] => []
  | _ => map (fun d => (d, 0%float)) (take k (bm25_rank documents question))
  end.

(** [_retrieve_documents] *)
Definition _retrieve_documents (store : gmap string (list chunk_rec)) (question : string) (k : nat)
  : list (Document * float) + exc :=
  match similarity_search question k with
  | inl results =>
      match results with
      | [] => inl (_retrieve_with_bm25 store question k)
      | _ => inl results
      end
  | inr e =>
      if _is_embedding_auth_error e then inl (_retrieve_with_bm25 store question k)
      else inr e
  end.
End Retrieval.

(* ------------------------------------------------------------------ *)
(** ** Chat streaming ([stream_chat_answer]) *)

(** [chunk.content] of a streamed message chunk: a string or a list of
    string parts. *)
Inductive chunk_content :=
  | ContentStr (s : string)
  | ContentList (parts : list string).

Definition token_of (c : chunk_content) : string :=
  match c with
  | ContentStr s => s
  | ContentList parts => String.concat "" parts
  end.

Record source_item := {
  si_source : string;
  si_score : float;
  si_preview : string
}.

(** The dicts [stream_chat_answer] yields. *)
Inductive event :=
  | EvToken (text : string)
  | EvSources (sources : list source_item)
  | EvCompleteText (text : string).

Fixpoint replace_newlines (s : string) : string :=
  match s with
  | EmptyString => EmptyString
  | String c s' => String (if Ascii.eqb c "010"%char then " "%char else c) (replace_newlines s')
  end.

(** [{"source": ..., "score": float(score), "preview": ...}] *)
Definition source_of (r : Document * float) : source_item :=
  {| si_source := md_source r.1; si_score := r.2;
     si_preview := replace_newlines (utf8_take 180 (page_content r.1)) |}.

(** The [async for chunk in llm.astream(...)] body over the chunks a
    candidate streams: yields each non-empty token and threads
    [emitted_tokens] and [full_text]. *)
Fixpoint stream_tokens (chunks : list chunk_content) (emitted : bool) (full_text : string)
  : list event * bool * string :=
  match chunks with
  | [] => ([], emitted, full_text)
  | c :: cs =>
      let token := token_of c in
      if bool_decide (token = "") then stream_tokens cs emitted full_text
      else
        let '(evs, em, ft) := stream_tokens cs true (full_text +:+ token) in
        (EvToken token :: evs, em, ft)
  end.

Section Chat.
(** [llm.astream(...)] for a candidate model: the chunks it delivers, and
    the exception it raises after them, if any. *)
Variable astream : string -> list chunk_content * option exc.

(** The [for index, candidate_model in enumerate(model_candidates)] loop;
    [ncand] is [len(model_candidates)].  Returns the yielded events, the
    exception that escapes, and [full_text]. *)
Fixpoint candidate_loop (ncand index : nat) (cands : list string) (emitted : bool)
    (full_text : string) : list event * option exc * string :=
  match cands with
  | [] => ([], None, full_text)
  | m :: rest =>
      let '(chunks, err) := astream m in
      let '(evs, emitted', full') := stream_tokens chunks emitted full_text in
      match err with
      | None =>
          if emitted' then (evs, None, full')
          else let '(evs2, r, f2) := candidate_loop ncand (S index) rest emitted' full' in
               (evs ++ evs2, r, f2)
      | Some e =>
          if Nat.ltb index (ncand - 1) then
            let '(evs2, r, f2) := candidate_loop ncand (S index) rest emitted' full' in
            (evs ++ evs2, r, f2)
          else (evs, Some e, full')
      end
  end.

(** [model_candidates] for [chat_model] and the configured
    [openai_chat_model]. *)
Definition model_candidates (chat_model : option string) (default_model : string) : list string :=
  let requested :=
    match chat_model with
    | Some m => if bool_decide (m = "") then default_model else m
    | None => default_model
    end in
  if bool_decide (requested = default_model) then [requested] else [requested; default_model].

(** [stream_chat_answer], given what [_retrieve_documents] returned: the
    events yielded and the exception that escapes, if any. *)
Definition stream_chat_answer (retrieved : list (Document * float) + exc)
    (chat_model : option string) (default_model : string) : list event * option exc :=
  match retrieved with
  | inr e => ([], Some e)
  | inl results =>
      let sources_payload := map source_of results in
      let cands := model_candidates chat_model default_model in
      let '(evs, err, full_text) := candidate_loop (length cands) 0 cands false "" in
      match err with
      | Some e => (evs, Some e)
      | None => (evs ++ [EvSources sources_payload; EvCompleteText full_text], None)
      end
  end.
End Chat.

(* ------------------------------------------------------------------ *)
(** ** Session history ([sessions.py]) *)

Inductive message :=
  | HumanMessage (content : string)
  | AIMessage (content : string).

Record SessionStore := {
  ss_messages : gmap string (list message);
  ss_max_messages : nat
}.

Definition new_session_store : SessionStore :=
  {| ss_messages := ∅; ss_max_messages := 10 |}.

(** Python's [xs[-m:]] for [m >= 0] ([xs[-0:]] is the whole list). *)
Definition py_tail {A} (m : nat) (xs : list A) : list A :=
  match m with
  | 0 => xs
  | _ => drop (length xs - m) xs
  end.

(** [get_messages]: a copy of the session's list ([defaultdict(list)]
    reads a missing session as empty). *)
Definition get_messages (s : SessionStore) (session_id : string) : list message :=
  default [] (ss_messages s !! session_id).

Definition append_turn (s : SessionStore) (session_id user_message assistant_message : string)
  : SessionStore :=
  let msgs := get_messages s session_id ++ [HumanMessage user_message; AIMessage assistant_message] in
  {| ss_messages := <[session_id := py_tail (ss_max_messages s) msgs]> (ss_messages s);
     ss_max_messages := ss_max_messages s |}.

(* ------------------------------------------------------------------ *)
(** ** The [/chat] event stream ([main.py]) *)

Inductive sse_data :=
  | DText (text : string)
  | DSources (sources : list source_item)
  | DEmpty.

(** An SSE frame [event: <name>\ndata: <json>\n\n], by name and payload. *)
Record sse_frame := SSE {
  sse_event : string;
  sse_payload : sse_data
}.

Definition event_name (ev : event) : string :=
  match ev with
  | EvToken _ => "token"
  | EvSources _ => "sources"
  | EvCompleteText _ => "complete_text"
  end.

Definition event_data (ev : event) : sse_data :=
  match ev with
  | EvToken t => DText t
  | EvSources s => DSources s
  | EvCompleteText t => DText t
  end.

(** The [async for event in stream_chat_answer(...)] body: forwards every
    event but [complete_text], whose text it keeps. *)
Fixpoint forward_events (evs : list event) (assistant_full_text : string)
  : list sse_frame * string :=
  match evs with
  | [] => ([], assistant_full_text)
  | ev :: evs' =>
      if bool_decide (event_name ev = "complete_text") then
        forward_events evs' (match ev with EvCompleteText t => t | _ => "" end)
      else
        let '(frames, a) := forward_events evs' assistant_full_text in
        (SSE (event_name ev) (event_data ev) :: frames, a)
  end.

(** The [except] clauses of [event_stream]: the frame that replaces the
    exception, or [None] when it is re-raised. *)
Definition error_frame (e : exc) : option sse_frame :=
  match e with
  | AuthenticationError =>
      Some (SSE "token" (DText "OpenAI authentication failed. Verify OPENAI_API_KEY in backend .env."))
  | ValueError m => Some (SSE "token" (DText ("Chat generation failed: " +:+ m)))
  | APIStatusError c =>
      if status_is_auth c then
        Some (SSE "token" (DText "OpenAI authorization failed. Verify OPENAI_API_KEY and model permissions."))
      else None
  | _ => None
  end.

(** [event_stream] of [/chat], given what [stream_chat_answer] yields:
    the session store after it, the frames sent, and the exception that
    escapes, if any. *)
Definition chat_event_stream (store : SessionStore) (session_id msg : string)
    (answer : list event * option exc) : SessionStore * list sse_frame * option exc :=
  let '(evs, err) := answer in
  let '(frames, assistant_full_text) := forward_events evs "" in
  let finish frames :=
    let store' := if bool_decide (assistant_full_text = "") then store
                  else append_turn store session_id msg assistant_full_text in
    (store', frames ++ [SSE "done" DEmpty], None) in
  match err with
  | None => finish frames
  | Some e =>
      match error_frame e with
      | Some fr => finish (frames ++ [fr])
      | None => (store, frames, Some e)
      end
  end.

(* ------------------------------------------------------------------ *)
(** ** Auxiliary definitions for the statements *)

(** A sequence of [append_turn(session_id, user, assistant)] calls. *)
Definition apply_turns (s : SessionStore) (ops : list (string * string * string)) : SessionStore :=
  fold_left (fun st '(sid, u, a) => append_turn st sid u a) ops s.

(** The messages those calls append to one session, oldest first. *)
Definition session_log (sid : string) (ops : list (string * string * string)) : list message :=
  concat (map (fun '(s, u, a) =>
                 if bool_decide (s = sid) then [HumanMessage u; AIMessage a] else []) ops).

(** [full_text] built by [+=] from the tokens. *)
Definition join_tokens (toks : list string) : string := foldr String.append "" toks.

Definition token_frame (t : string) : sse_frame := SSE "token" (DText t).

(** The [Document] [load_chunk_documents] builds for a chunk record. *)
Definition chunk_document (source : string) (c : chunk_rec) : Document :=
  {| page_content := c_page_content c; md_source := source;
     md_file_sha256 := c_file_sha256 c; md_chunk_index := c_chunk_index c |}.

(* ------------------------------------------------------------------ *)
(** ** Concrete inputs *)

(** A requested model that streams ["Hel"] and then fails, with the
    default model answering ["Hello"]. *)
Definition astream_partial_failure (m : string) : list chunk_content * option exc :=
  if bool_decide (m = "gpt-custom") then ([ContentStr "Hel"], Some (OtherError None))
  else ([ContentStr "Hello"], None).

(** The default model streaming ["ho"] and ["la"]. *)
Definition astream_hola (m : string) : list chunk_content * option exc :=
  ([ContentStr "ho"; ContentStr "la"], None).

(** The string has no [':'] (the separator of [doc_id]). *)
Fixpoint no_colon (s : string) : bool :=
  match s with
  | EmptyString => true
  | String c s' => negb (Ascii.eqb c ":") && no_colon s'
  end.

(** The ids [ingest_documents] assigns to the chunks of [f] when its
    extracted text is not blank. *)
Definition file_doc_ids (E : ingest_env) (f : source_file) : list string :=
  match env_extract E f with
  | Some text => make_doc_ids (sf_rel_path f) (_sha256_file E f) (env_split E text)
  | None => []
  end.

(** A concrete environment for the ingestion examples: the digest is the
    identity (an injective stand-in for SHA-256), a file's text is its
    bytes, the splitter returns the text as one chunk, and [fault] says
    which Chroma calls fail. *)
Definition bytes_text (b : list Byte.byte) : string :=
  string_of_list_ascii (map ascii_of_byte b).

Definition test_env (fault : vs_call -> option exc) : ingest_env :=
  {| env_sha256 := fun b => b;
     env_extract := fun f => Some (bytes_text (sf_bytes f));
     env_split := fun t => [t];
     env_fault := fault |}.

Definition no_fault (c : vs_call) : option exc := None.

(** Every [add_documents] call is refused with a 401. *)
Definition add_unauthorized (c : vs_call) : option exc :=
  match c with
  | CallAdd _ => Some AuthenticationError
  | _ => None
  end.

Definition file_a_v1 : source_file := {| sf_rel_path := "ingest/a.txt"; sf_bytes := [Byte.x68; Byte.x69] |}.
Definition file_a_v2 : source_file := {| sf_rel_path := "ingest/a.txt"; sf_bytes := [Byte.x68; Byte.x6f] |}.
Definition file_b : source_file := {| sf_rel_path := "ingest/b.txt"; sf_bytes := [Byte.x79; Byte.x6f] |}.

Definition empty_persisted : persisted :=
  {| p_vs := ∅; p_manifest := ∅; p_chunk_store := ∅ |}.

(** The state after indexing [file_a_v1] ("hi") alone: one chunk, one id. *)
Definition id_a1 : string := doc_id "ingest/a.txt" "6869" 0.

Definition indexed_a_v1 : persisted :=
  {| p_vs := {[ id_a1 ]};
     p_manifest := {[ "ingest/a.txt" := {| e_sha256 := "6869"; e_doc_ids := [id_a1] |} ]};
     p_chunk_store := {[ "ingest/a.txt" := make_chunk_recs "6869" ["hi"] ]} |}.

(** Every [add_documents] call fails with a server error (not an
    authorization error). *)
Definition add_server_error (c : vs_call) : option exc :=
  match c with
  | CallAdd _ => Some (APIStatusError 500)
  | _ => None
  end.

(** Every [delete] call fails: the collection cannot be reached for it. *)
Definition delete_unavailable (c : vs_call) : option exc :=
  match c with
  | CallDelete _ => Some APIConnectionError
  | _ => None
  end.

(** The state after indexing [file_a_v1] and [file_b]. *)
Definition id_b : string := doc_id "ingest/b.txt" "796f" 0.

Definition indexed_a_b : persisted :=
  {| p_vs := {[ id_a1; id_b ]};
     p_manifest := {[ "ingest/a.txt" := {| e_sha256 := "6869"; e_doc_ids := [id_a1] |};
                      "ingest/b.txt" := {| e_sha256 := "796f"; e_doc_ids := [id_b] |} ]};
     p_chunk_store := {[ "ingest/a.txt" := make_chunk_recs "6869" ["hi"];
                         "ingest/b.txt" := make_chunk_recs "796f" ["yo"] ]} |}.

(** A manifest edited by hand: the entry of [b.txt] lists the id minted
    for [a.txt]. *)
Definition shared_id_persisted : persisted :=
  {| p_vs := {[ id_a1 ]};
     p_manifest := {[ "ingest/a.txt" := {| e_sha256 := "6869"; e_doc_ids := [id_a1] |};
                      "ingest/b.txt" := {| e_sha256 := "796f"; e_doc_ids := [id_a1] |} ]};
     p_chunk_store := {[ "ingest/a.txt" := make_chunk_recs "6869" ["hi"];
                         "ingest/b.txt" := make_chunk_recs "796f" ["yo"] ]} |}.

(** ** Invariants of the manifest used by the idempotence argument *)

(** [x] is an id minted for path [rel]: [rel:h:i] with a colon-free hash. *)
Definition owned (rel x : string) : Prop :=
  exists h i, no_colon h = true /\ x = doc_id rel h i.

(** Every id of the manifest entry of [q] was minted for [q]. *)
Definition wf_manifest (m : gmap string entry) : Prop :=
  forall q e, m !! q = Some e -> forall x, x ∈ e_doc_ids e -> owned q x.

(** An unforced pass over [g] from [st] indexes nothing: the presence check
    skips it, or its text cannot be extracted, or its text is blank. *)
Definition settled (E : ingest_env) (st : ingest_state) (g : source_file) : Prop :=
  skip_unchanged E false (st_tracked st) (st_vs st) (sf_rel_path g) (_sha256_file E g) = true \/
  env_extract E g = None \/
  exists t, env_extract E g = Some t /\ is_blank t = true.

(* ------------------------------------------------------------------ *)
(** ** The HTTP layer of ingestion ([main.py]) *)

(** What a FastAPI handler ends with: a value, an [HTTPException] with its
    status code and detail, or an exception that escapes. *)
Inductive http_result (A : Type) :=
  | HttpOk (x : A)
  | HTTPException (status_code : Z) (detail : string)
  | Raised (e : exc).
Arguments HttpOk {A} x.
Arguments HTTPException {A} status_code detail.
Arguments Raised {A} e.

(** The [except] clauses of [_run_ingest], in their order. *)
Definition run_ingest_handler (outcome : ingest_response + exc) : http_result ingest_response :=
  match outcome with
  | inl r => HttpOk r
  | inr APIConnectionError =>
      HTTPException 502 "Could not reach OpenAI API. Check OPENAI_BASE_URL/OPENAI_API_KEY in .env."
  | inr AuthenticationError =>
      HTTPException 401 "OpenAI API authentication failed. Verify OPENAI_API_KEY."
  | inr (APIStatusError c) =>
      if status_is_auth c then
        HTTPException c ("OpenAI API key is not authorized for embeddings. " +:+
                         "The app falls back to BM25 retrieval when this happens.")
      else Raised (APIStatusError c)
  | inr e => Raised e
  end.

(** [_run_ingest(force)]: the persisted state after the run and the
    handler's result. *)
Definition _run_ingest (E : ingest_env) (force : bool) (files : list source_file) (p : persisted)
  : persisted * http_result ingest_response :=
  let '(p', outcome) := ingest_documents E force files p in
  (p', run_ingest_handler outcome).

(* ------------------------------------------------------------------ *)
(** ** Uploads ([ingest_upload] in [main.py]) *)

(** [s.split(sep)] for a one-character separator: ["".split(",") == [""]]. *)
Fixpoint py_split (sep : ascii) (s : string) : list string :=
  match s with
  | EmptyString => [""]
  | String c s' =>
      let parts := py_split sep s' in
      if Ascii.eqb c sep then "" :: parts
      else match parts with
           | p :: ps => String c p :: ps
           | [] => [String c ""]
           end
  end.

(** [PurePosixPath(s).name]: the last component once the path is split at
    ['/'] and its empty and ["."] components are dropped; [""] when none
    is left. *)
Definition path_name (s : string) : string :=
  default "" (last (filter (fun c => negb (bool_decide (c = "")) && negb (bool_decide (c = ".")))
                           (py_split "/" s))).

(** [name.rfind(".")], as an index. *)
Fixpoint rfind_dot (s : string) : option nat :=
  match s with
  | EmptyString => None
  | String c s' =>
      match rfind_dot s' with
      | Some i => Some (S i)
      | None => if Ascii.eqb c "." then Some 0 else None
      end
  end.

(** [PurePath.suffix]: [name[i:]] when [0 < i < len(name) - 1], else [""]. *)
Definition path_suffix (name : string) : string :=
  match rfind_dot name with
  | Some i => if Nat.ltb 0 i && Nat.ltb i (String.length name - 1)
              then substring i (String.length name - i) name else ""
  | None => ""
  end.

(** [str.lower()] restricted to what the comparison with [".txt"] and
    [".pdf"] can see: no character outside ASCII lowercases to one of
    [.], [t], [x], [p], [d], [f], so mapping [A-Z] to [a-z] and keeping
    every other byte of the UTF-8 text decides that comparison exactly. *)
Definition ascii_lower (c : ascii) : ascii :=
  let n := nat_of_ascii c in
  if Nat.leb 65 n && Nat.leb n 90 then ascii_of_nat (n + 32) else c.

Fixpoint py_lower (s : string) : string :=
  match s with
  | EmptyString => EmptyString
  | String c s' => String (ascii_lower c) (py_lower s')
  end.

(** [SUPPORTED_UPLOAD_EXTENSIONS] *)
Definition supported_upload_extension (ext : string) : bool :=
  bool_decide (ext = ".txt") || bool_decide (ext = ".pdf").

Record upload_response := {
  uploaded_files : list string;
  rejected_files : list string;
  ingest : ingest_response
}.

Section Upload.
(** What opening [ingest_dir / safe_name] for writing and copying the
    upload into it raises, if anything (an embedded NUL byte, a name too
    long for the file system, ...). *)
Variable write_fault : string -> option exc.

(** The [for incoming in files] loop over the uploads' [filename]s
    ([None] when the part has none): the uploaded and rejected lists, and
    the exception that escapes, if any. *)
Fixpoint upload_loop (files : list (option string)) (uploaded_files rejected_files : list string)
  : list string * list string * option exc :=
  match files with
  | [] => (uploaded_files, rejected_files, None)
  | filename :: rest =>
      let incoming_name := default "" filename in
      let safe_name := path_name incoming_name in
      let file_extension := py_lower (path_suffix safe_name) in
      if bool_decide (safe_name = "") || negb (supported_upload_extension file_extension) then
        upload_loop rest uploaded_files
          (rejected_files ++ [if bool_decide (incoming_name = "") then "<unnamed>" else incoming_name])
      else
        match write_fault safe_name with
        | Some e => (uploaded_files, rejected_files, Some e)
        | None => upload_loop rest (uploaded_files ++ ["ingest/" +:+ safe_name]) rejected_files
        end
  end.

(** [ingest_upload], given what [_run_ingest(force=False)] ends with once
    the files are written. *)
Definition ingest_upload (files : list (option string)) (run : http_result ingest_response)
  : http_result upload_response :=
  match upload_loop files [] [] with
  | (_, _, Some e) => Raised e
  | (uploaded, rejected, None) =>
      match uploaded with
      | [] => HTTPException 400 "No valid files uploaded. Supported extensions: .txt, .pdf."
      | _ =>
          match run with
          | HttpOk r => HttpOk {| uploaded_files := uploaded; rejected_files := rejected; ingest := r |}
          | HTTPException c d => HTTPException c d
          | Raised e => Raised e
          end
      end
  end.
End Upload.

(** The string has no ['/']. *)
Fixpoint no_slash (s : string) : bool :=
  match s with
  | EmptyString => true
  | String c s' => negb (Ascii.eqb c "/") && no_slash s'
  end.

(** No upload fails to be written. *)
Definition no_write_fault (n : string) : option exc := None.

(** The messages of a list of (user, assistant) turns, each turn as a
    [HumanMessage] followed by an [AIMessage]. *)
Definition pairs_hist (ps : list (string * string)) : list message :=
  concat (map (fun '(u, a) => [HumanMessage u; AIMessage a]) ps).

(** The (user, assistant) turns a sequence of [append_turn] calls adds to
    one session, oldest first. *)
Definition session_turns (sid : string) (ops : list (string * string * string)) : list (string * string) :=
  concat (map (fun '(s, u, a) => if bool_decide (s = sid) then [(u, a)] else []) ops).

(** An uploaded path: ["ingest/"] and one plain file name with a
    supported extension. *)
Definition safe_upload_path (x : string) : Prop :=
  exists n, x = "ingest/" +:+ n /\ n <> "" /\ n <> "." /\ n <> ".." /\ no_slash n = true /\
    supported_upload_extension (py_lower (path_suffix n)) = true.


(** Every model streaming ["Hel"] and then failing authentication. *)
Definition astream_auth_failure (m : string) : list chunk_content * option exc :=
  ([ContentStr "Hel"], Some AuthenticationError).

(* ------------------------------------------------------------------ *)
(** ** CORS origins ([Settings.allowed_origins_list] in [config.py]) *)

Fixpoint py_lstrip (s : pystr) : pystr :=
  match s with
  | [] => []
  | c :: s' => if py_isspace c then py_lstrip s' else s
  end.

Definition py_rstrip (s : pystr) : pystr := rev (py_lstrip (rev s)).

(** [str.strip()] *)
Definition py_strip (s : pystr) : pystr := py_rstrip (py_lstrip s).

(** [str.split(sep)] for a one-character separator. *)
Fixpoint py_split_cp (sep : Z) (s : pystr) : list pystr :=
  match s with
  | [] => [[]]
  | c :: s' =>
      let parts := py_split_cp sep s' in
      if Z.eqb c sep then [] :: parts
      else match parts with
           | p :: ps => (c :: p) :: ps
           | [] => [[c]]
           end
  end.

(** [allowed_origins_list]: [[origin.strip() for origin in
    self.allowed_origins.split(",") if origin.strip()]] ([44] is [","]). *)
Definition allowed_origins_list (allowed_origins : pystr) : list pystr :=
  map py_strip (filter (fun origin => negb (bool_decide (py_strip origin = [])))
                       (py_split_cp 44 allowed_origins)).

(** Pieces written one after the other, separated by [","]. *)
Fixpoint join_commas (ps : list pystr) : pystr :=
  match ps with
  | [] => []
  | [p] => p
  | p :: ps' => p ++ 44%Z :: join_commas ps'
  end.

(** An origin [o] written with whitespace [pre] before it and [post]
    after it. *)
Definition padded (w : pystr * pystr * pystr) : pystr := w.1.1 ++ w.1.2 ++ w.2.

(** ["http://localhost:5173"], the default of [ALLOWED_ORIGINS]. *)
Definition localhost_5173 : pystr :=
  map (fun a => Z.of_nat (nat_of_ascii a)) (list_ascii_of_string "http://localhost:5173").

(** [test_env no_fault] where no file can be read. *)
Definition unreadable_env : ingest_env :=
  {| env_sha256 := fun b => b;
     env_extract := fun _ => None;
     env_split := fun t => [t];
     env_fault := no_fault |}.

(** The string has no line feed. *)
Fixpoint no_newline (s : string) : bool :=
  match s with
  | EmptyString => true
  | String c s' => negb (Ascii.eqb c "010"%char) && no_newline s'
  end.

(* ------------------------------------------------------------------ *)
(** ** Server-sent events ([_to_sse] in [main.py]) for text payloads *)

Definition dq : ascii := "034"%char.
Definition bs : ascii := "092"%char.
Definition nl : string := String "010"%char EmptyString.

(** [json.dumps] (with [ensure_ascii=False]) on one character of a
    string: the two-character escapes, [\u00XX] for the other control
    characters, and the character itself otherwise. *)
Definition json_escape_char (c : ascii) : string :=
  let n := nat_of_ascii c in
  if Ascii.eqb c dq then String bs (String dq EmptyString)
  else if Ascii.eqb c bs then String bs (String bs EmptyString)
  else if Nat.eqb n 10 then String bs "n"
  else if Nat.eqb n 13 then String bs "r"
  else if Nat.eqb n 9 then String bs "t"
  else if Nat.eqb n 8 then String bs "b"
  else if Nat.eqb n 12 then String bs "f"
  else if Nat.ltb n 32 then
    String bs ("u00" +:+ String (hex_digit (n / 16)) (String (hex_digit (n mod 16)) EmptyString))
  else String c EmptyString.

Fixpoint json_escape (s : string) : string :=
  match s with
  | EmptyString => EmptyString
  | String c s' => json_escape_char c +:+ json_escape s'
  end.

(** A JSON string literal. *)
Definition json_str (s : string) : string := String dq (json_escape s +:+ String dq EmptyString).

(** [_to_sse(event, {"text": text})]: [json.dumps] writes the dict as
    [{"text": <literal>}] with its default separators. *)
Definition _to_sse_text (event text : string) : string :=
  "event: " +:+ event +:+ nl +:+ "data: " +:+ "{" +:+ json_str "text" +:+ ": " +:+ json_str text
  +:+ "}" +:+ nl +:+ nl.

(** Reading JSON back, as a client does (RFC 8259 strings; [\u] escapes
    above [00ff] are not needed here and are refused). *)
Definition hex_nibble (c : ascii) : option nat :=
  let n := nat_of_ascii c in
  if Nat.leb 48 n && Nat.leb n 57 then Some (n - 48)
  else if Nat.leb 97 n && Nat.leb n 102 then Some (n - 87)
  else if Nat.leb 65 n && Nat.leb n 70 then Some (n - 55)
  else None.

(** The characters of a string literal after its opening quote: the
    decoded text and what follows the closing quote. *)
Fixpoint read_json_chars (s : string) : option (string * string) :=
  let cons_to c r := match r with Some (t, rest) => Some (String c t, rest) | None => None end in
  match s with
  | EmptyString => None
  | String c s' =>
      if Ascii.eqb c dq then Some (EmptyString, s')
      else if Ascii.eqb c bs then
        match s' with
        | EmptyString => None
        | String e s'' =>
            if Ascii.eqb e dq then cons_to dq (read_json_chars s'')
            else if Ascii.eqb e bs then cons_to bs (read_json_chars s'')
            else if Ascii.eqb e "/" then cons_to "/"%char (read_json_chars s'')
            else if Ascii.eqb e "n" then cons_to "010"%char (read_json_chars s'')
            else if Ascii.eqb e "r" then cons_to "013"%char (read_json_chars s'')
            else if Ascii.eqb e "t" then cons_to "009"%char (read_json_chars s'')
            else if Ascii.eqb e "b" then cons_to "008"%char (read_json_chars s'')
            else if Ascii.eqb e "f" then cons_to "012"%char (read_json_chars s'')
            else if Ascii.eqb e "u" then
              match s'' with
              | String h1 (String h2 (String h3 (String h4 s3))) =>
                  match hex_nibble h1, hex_nibble h2, hex_nibble h3, hex_nibble h4 with
                  | Some 0, Some 0, Some a, Some b => cons_to (ascii_of_nat (16 * a + b)) (read_json_chars s3)
                  | _, _, _, _ => None
                  end
              | _ => None
              end
            else None
        end
      else if Nat.ltb (nat_of_ascii c) 32 then None
      else cons_to c (read_json_chars s')
  end.

Definition read_json_string (s : string) : option (string * string) :=
  match s with
  | String c s' => if Ascii.eqb c dq then read_json_chars s' else None
  | EmptyString => None
  end.

(** A JSON object [{"text": <literal>}] written with [json.dumps]'s
    separators: the text. *)
Definition read_json_text_obj (s : string) : option string :=
  match s with
  | String c s1 =>
      if Ascii.eqb c "{" then
        match read_json_string s1 with
        | Some (k, String c1 (String c2 s2)) =>
            if bool_decide (k = "text") && Ascii.eqb c1 ":" && Ascii.eqb c2 " " then
              match read_json_string s2 with
              | Some (v, rest) => if bool_decide (rest = "}") then Some v else None
              | None => None
              end
            else None
        | _ => None
        end
      else None
  | EmptyString => None
  end.

(* ================================================================== *)
(** * Proofs *)

(* ------------------------------------------------------------------ *)
(** ** Strings *)

Lemma sapp_nil_l (x : string) : "" +:+ x = x.
Proof. reflexivity. Qed.

Lemma sapp_cons (c : ascii) (a x : string) : String c a +:+ x = String c (a +:+ x).
Proof. reflexivity. Qed.

Lemma sapp_assoc (a b c : string) : (a +:+ b) +:+ c = a +:+ (b +:+ c).
Proof. induction a as [|x a IH]; [reflexivity | exact (f_equal (String x) IH)]. Qed.

Lemma sapp_nil_r (a : string) : a +:+ "" = a.
Proof. induction a as [|x a IH]; [reflexivity | exact (f_equal (String x) IH)]. Qed.

(* ------------------------------------------------------------------ *)
(** ** Session history *)

Lemma py_tail_small {A} (m : nat) (l : list A) : length l <= m -> py_tail m l = l.
Proof.
  intros H. destruct m as [|m]; [done|]. simpl.
  replace (length l - S m) with 0 by lia. done.
Qed.

Lemma py_tail_app {A} (m : nat) (l r : list A) :
  0 < m -> py_tail m (py_tail m l ++ r) = py_tail m (l ++ r).
Proof.
  intros Hm. destruct m as [|m]; [lia|]. cbn [py_tail].
  destruct (decide (length l <= S m)) as [Hle|Hgt].
  - replace (length l - S m) with 0 by lia. done.
  - rewrite <- drop_app_le by lia. rewrite drop_drop.
    f_equal. rewrite length_drop, !length_app. lia.
Qed.

Lemma get_append_turn (s : SessionStore) sid sid' u a :
  get_messages (append_turn s sid u a) sid' =
  if bool_decide (sid = sid') then py_tail (ss_max_messages s) (get_messages s sid ++ [HumanMessage u; AIMessage a])
  else get_messages s sid'.
Proof.
  unfold get_messages at 1, append_turn; simpl. case_bool_decide as Heq.
  - subst. by rewrite lookup_insert_eq.
  - by rewrite lookup_insert_ne.
Qed.

Lemma apply_turns_get (s : SessionStore) ops sid :
  0 < ss_max_messages s ->
  length (get_messages s sid) <= ss_max_messages s ->
  get_messages (apply_turns s ops) sid = py_tail (ss_max_messages s) (get_messages s sid ++ session_log sid ops).
Proof.
  revert s. induction ops as [|[[sid0 u] a] ops IH]; intros s Hm Hlen.
  - simpl. rewrite app_nil_r. symmetry. by apply py_tail_small.
  - cbn [apply_turns fold_left]. fold (apply_turns (append_turn s sid0 u a) ops).
    rewrite IH; change (ss_max_messages (append_turn s sid0 u a)) with (ss_max_messages s);
      [| done |].
    + rewrite get_append_turn. unfold session_log at 2. cbn [map concat].
      fold (session_log sid ops).
      case_bool_decide as Heq.
      * subst. rewrite py_tail_app by done. by rewrite <- app_assoc.
      * done.
    + rewrite get_append_turn. case_bool_decide; [|done].
      subst. destruct (ss_max_messages s) as [|m]; [lia|]. simpl.
      rewrite length_drop. lia.
Qed.

(* ------------------------------------------------------------------ *)
(** ** Chat streaming *)

Lemma join_tokens_app (a b : list string) :
  join_tokens (a ++ b) = join_tokens a +:+ join_tokens b.
Proof.
  induction a as [|t ts IH]; [reflexivity|].
  change (t +:+ join_tokens (ts ++ b) = (t +:+ join_tokens ts) +:+ join_tokens b).
  by rewrite IH, sapp_assoc.
Qed.

Lemma stream_tokens_shape chunks emitted full :
  exists toks, (stream_tokens chunks emitted full).1.1 = map EvToken toks /\
               (stream_tokens chunks emitted full).2 = full +:+ join_tokens toks.
Proof.
  revert emitted full. induction chunks as [|c cs IH]; intros emitted full; simpl.
  - exists []. simpl. by rewrite sapp_nil_r.
  - case_bool_decide.
    + apply IH.
    + destruct (IH true (full +:+ token_of c)) as (toks & H1 & H2).
      destruct (stream_tokens cs true (full +:+ token_of c)) as [[evs em] ft] eqn:E.
      simpl in *. exists (token_of c :: toks). subst. simpl. split; [done|].
      by rewrite sapp_assoc.
Qed.

Lemma candidate_loop_shape astream cands ncand index emitted full :
  exists toks,
    (candidate_loop astream ncand index cands emitted full).1.1 = map EvToken toks /\
    (candidate_loop astream ncand index cands emitted full).2 = full +:+ join_tokens toks.
Proof.
  revert index emitted full. induction cands as [|m rest IH]; intros index emitted full; simpl.
  - exists []. simpl. by rewrite sapp_nil_r.
  - destruct (astream m) as [chunks err].
    destruct (stream_tokens_shape chunks emitted full) as (toks1 & H1 & H2).
    destruct (stream_tokens chunks emitted full) as [[evs em] ft] eqn:Es. simpl in H1, H2.
    subst evs ft.
    destruct (IH (S index) em (full +:+ join_tokens toks1)) as (toks2 & H3 & H4).
    destruct (candidate_loop astream ncand (S index) rest em (full +:+ join_tokens toks1))
      as [[evs2 r] f2] eqn:El. simpl in H3, H4. subst evs2 f2.
    destruct err as [e|].
    + destruct (Nat.ltb index (ncand - 1)).
      * exists (toks1 ++ toks2). simpl. rewrite map_app, join_tokens_app, sapp_assoc.
        done.
      * by exists toks1.
    + destruct em.
      * by exists toks1.
      * exists (toks1 ++ toks2). simpl. rewrite map_app, join_tokens_app, sapp_assoc.
        done.
Qed.

Lemma forward_tokens toks rest a :
  forward_events (map EvToken toks ++ rest) a =
  ((map token_frame toks ++ (forward_events rest a).1), (forward_events rest a).2).
Proof.
  induction toks as [|t ts IH]; simpl.
  - by destruct (forward_events rest a).
  - rewrite IH. by destruct (forward_events rest a).
Qed.

Lemma forward_sources_complete srcs t a :
  forward_events [EvSources srcs; EvCompleteText t] a = ([SSE "sources" (DSources srcs)], t).
Proof.
  unfold forward_events. rewrite bool_decide_false by (simpl; congruence).
  rewrite bool_decide_true by done. done.
Qed.

Lemma load_chunk_documents_complete (store : gmap string (list chunk_rec)) source cs c :
  store !! source = Some cs -> c ∈ cs -> chunk_document source c ∈ load_chunk_documents store.
Proof.
  intros Hs Hc. unfold load_chunk_documents. apply list_elem_of_In, in_concat.
  exists (map (chunk_document source) cs). split.
  - apply (in_map (fun '(source, chunks) => map (chunk_document source) chunks) _ (source, cs)).
    apply list_elem_of_In. by apply elem_of_map_to_list.
  - apply in_map. by apply list_elem_of_In.
Qed.

(* ------------------------------------------------------------------ *)
(** ** Claims on sessions, chat streaming and retrieval *)

(** C9: after any sequence of [append_turn] calls on a fresh store,
    [get_messages sid] is exactly the last (at most) 10 messages appended
    to [sid], in order. *)
Theorem session_history_capped (ops : list (string * string * string)) (sid : string) :
  get_messages (apply_turns new_session_store ops) sid = py_tail 10 (session_log sid ops) /\
  length (get_messages (apply_turns new_session_store ops) sid) = Nat.min 10 (length (session_log sid ops)).
Proof.
  assert (H : get_messages (apply_turns new_session_store ops) sid = py_tail 10 (session_log sid ops)).
  { assert (H0 : get_messages new_session_store sid = []).
    { unfold get_messages. simpl. by rewrite lookup_empty. }
    rewrite apply_turns_get, H0; simpl; [done | lia | rewrite H0; simpl; lia]. }
  split; [exact H|]. rewrite H. cbn [py_tail]. rewrite length_drop. lia.
Qed.

Example six_turns_keep_ten :
  get_messages (apply_turns new_session_store
    [("s","u1","a1"); ("s","u2","a2"); ("s","u3","a3");
     ("s","u4","a4"); ("s","u5","a5"); ("s","u6","a6")]) "s" =
  [HumanMessage "u2"; AIMessage "a2"; HumanMessage "u3"; AIMessage "a3";
   HumanMessage "u4"; AIMessage "a4"; HumanMessage "u5"; AIMessage "a5";
   HumanMessage "u6"; AIMessage "a6"].
Proof. vm_compute. reflexivity. Qed.

(** C4 (failing input): the requested model emits ["Hel"] and then
    fails, yet no exception escapes: the default model is tried and its
    tokens follow the partial ones, so the answer reads ["HelHello"]. *)
Lemma fallback_after_partial_output_cex :
  stream_chat_answer astream_partial_failure (inl []) (Some "gpt-custom") "gpt-4o-mini" =
  ([EvToken "Hel"; EvToken "Hello"; EvSources []; EvCompleteText "HelHello"], None).
Proof. vm_compute. reflexivity. Qed.

(** C4 (as the code does it, against the rule of no retry after partial
    output): with a requested model [m] distinct from the default [d], a
    failure of [m]'s stream moves on to [d] whatever [m] had emitted; the
    tokens of both are yielded, and an exception escapes only if [d], the
    last candidate, fails as well. *)
Theorem fallback_ignores_partial_output astream (results : list (Document * float))
    (m d : string) chunks1 e :
  m <> "" -> m <> d -> astream m = (chunks1, Some e) ->
  stream_chat_answer astream (inl results) (Some m) d =
  let '(evs1, em1, full1) := stream_tokens chunks1 false "" in
  let '(evs2, em2, full2) := stream_tokens (astream d).1 em1 full1 in
  match (astream d).2 with
  | Some e2 => (evs1 ++ evs2, Some e2)
  | None => (evs1 ++ evs2 ++ [EvSources (map source_of results); EvCompleteText full2], None)
  end.
Proof.
  intros Hm Hmd Hs. unfold stream_chat_answer, model_candidates.
  rewrite (bool_decide_false (m = "")) by done.
  rewrite (bool_decide_false (m = d)) by done.
  cbn [length candidate_loop]. rewrite Hs.
  destruct (stream_tokens chunks1 false "") as [[evs1 em1] full1].
  cbn [Nat.ltb Nat.leb Nat.sub].
  destruct (astream d) as [chunks2 [e2|]]; cbn [fst snd];
    destruct (stream_tokens chunks2 em1 full1) as [[evs2 em2] full2]; cbn [Nat.ltb Nat.leb Nat.sub].
  - done.
  - destruct em2; by rewrite ?app_nil_r, <- ?app_assoc.
Qed.

Lemma fallback_ignores_partial_output_witness :
  "gpt-custom" <> "" /\ "gpt-custom" <> "gpt-4o-mini" /\
  astream_partial_failure "gpt-custom" = ([ContentStr "Hel"], Some (OtherError None)) /\
  stream_chat_answer astream_partial_failure (inl []) (Some "gpt-custom") "gpt-4o-mini" =
  let '(evs1, em1, full1) := stream_tokens [ContentStr "Hel"] false "" in
  let '(evs2, em2, full2) := stream_tokens (astream_partial_failure "gpt-4o-mini").1 em1 full1 in
  match (astream_partial_failure "gpt-4o-mini").2 with
  | Some e2 => (evs1 ++ evs2, Some e2)
  | None => (evs1 ++ evs2 ++ [EvSources (map source_of []); EvCompleteText full2], None)
  end.
Proof.
  assert (H1 : "gpt-custom" <> "") by discriminate.
  assert (H2 : "gpt-custom" <> "gpt-4o-mini") by discriminate.
  assert (H3 : astream_partial_failure "gpt-custom" = ([ContentStr "Hel"], Some (OtherError None)))
    by reflexivity.
  split; [exact H1|]. split; [exact H2|]. split; [exact H3|].
  exact (fallback_ignores_partial_output astream_partial_failure [] "gpt-custom" "gpt-4o-mini"
           [ContentStr "Hel"] (OtherError None) H1 H2 H3).
Defined.

(** C5 (counterexample): a chat request whose answer completes without
    error sends [token], [token], [sources], [done]: no [complete_text]
    event reaches the client. *)
Lemma chat_stream_has_no_complete_text_cex :
  (chat_event_stream new_session_store "s1" "hola"
     (stream_chat_answer astream_hola (inl []) None "gpt-4o-mini")).1.2 =
  [SSE "token" (DText "ho"); SSE "token" (DText "la"); SSE "sources" (DSources []);
   SSE "done" DEmpty] /\
  (chat_event_stream new_session_store "s1" "hola"
     (stream_chat_answer astream_hola (inl []) None "gpt-4o-mini")).2 = None.
Proof. vm_compute. split; reflexivity. Qed.

(** C5 (as the code does it): when [stream_chat_answer] finishes without
    an exception it has yielded [token]* then one [sources] then one
    [complete_text] carrying the concatenation of the token texts; [/chat]
    forwards the [token] and [sources] events, keeps [complete_text] for
    the session history instead of sending it, and ends with one [done]. *)
Theorem chat_event_order astream retrieved chat_model default_model
    (store : SessionStore) (sid msg : string) :
  (stream_chat_answer astream retrieved chat_model default_model).2 = None ->
  exists toks srcs,
    stream_chat_answer astream retrieved chat_model default_model =
      (map EvToken toks ++ [EvSources srcs; EvCompleteText (join_tokens toks)], None) /\
    chat_event_stream store sid msg (stream_chat_answer astream retrieved chat_model default_model) =
      ((if bool_decide (join_tokens toks = "") then store
        else append_turn store sid msg (join_tokens toks)),
       map token_frame toks ++ [SSE "sources" (DSources srcs); SSE "done" DEmpty], None).
Proof.
  intros Hok. unfold stream_chat_answer in *.
  destruct retrieved as [results|e]; [|discriminate].
  set (cands := model_candidates chat_model default_model) in *.
  destruct (candidate_loop_shape astream cands (length cands) 0 false "") as (toks & H1 & H2).
  destruct (candidate_loop astream (length cands) 0 cands false "") as [[evs err] full].
  destruct err as [e|]; [discriminate|]. simpl in H1, H2. subst evs full.
  exists toks, (map source_of results). split; [done|].
  unfold chat_event_stream. rewrite forward_tokens, forward_sources_complete. simpl.
  by rewrite <- app_assoc.
Qed.

Lemma chat_event_order_witness :
  (stream_chat_answer astream_hola (inl []) None "gpt-4o-mini").2 = None /\
  exists toks srcs,
    stream_chat_answer astream_hola (inl []) None "gpt-4o-mini" =
      (map EvToken toks ++ [EvSources srcs; EvCompleteText (join_tokens toks)], None) /\
    chat_event_stream new_session_store "s1" "hola"
      (stream_chat_answer astream_hola (inl []) None "gpt-4o-mini") =
      ((if bool_decide (join_tokens toks = "") then new_session_store
        else append_turn new_session_store "s1" "hola" (join_tokens toks)),
       map token_frame toks ++ [SSE "sources" (DSources srcs); SSE "done" DEmpty], None).
Proof.
  assert (H : (stream_chat_answer astream_hola (inl []) None "gpt-4o-mini").2 = None)
    by (vm_compute; reflexivity).
  split; [exact H|].
  exact (chat_event_order astream_hola (inl []) None "gpt-4o-mini" new_session_store "s1" "hola" H).
Defined.

(** C6: on an empty similarity search, or an authorization failure of it,
    [_retrieve_documents] returns the BM25 fallback; any other exception
    escapes; results returned by the search are passed through.  The
    fallback ranks the documents of every chunk of the chunk store and
    returns at most [k] of them, each with score [0.0]. *)
Theorem retrieve_fallback bm25_rank similarity_search
    (store : gmap string (list chunk_rec)) (q : string) (k : nat) :
  _retrieve_documents bm25_rank similarity_search store q k =
    match similarity_search q k with
    | inl [] => inl (_retrieve_with_bm25 bm25_rank store q k)
    | inl results => inl results
    | inr e => if _is_embedding_auth_error e then inl (_retrieve_with_bm25 bm25_rank store q k)
               else inr e
    end /\
  _retrieve_with_bm25 bm25_rank store q k =
    (if bool_decide (load_chunk_documents store = []) then []
     else map (fun d => (d, 0%float)) (take k (bm25_rank (load_chunk_documents store) q))) /\
  length (_retrieve_with_bm25 bm25_rank store q k) <= k /\
  Forall (fun r => r.2 = 0%float) (_retrieve_with_bm25 bm25_rank store q k) /\
  (forall source cs c, store !! source = Some cs -> c ∈ cs ->
     chunk_document source c ∈ load_chunk_documents store).
Proof.
  split; [| split; [| split; [| split]]].
  - unfold _retrieve_documents. by destruct (similarity_search q k) as [[|r rs]|e].
  - unfold _retrieve_with_bm25. by destruct (load_chunk_documents store).
  - unfold _retrieve_with_bm25. destruct (load_chunk_documents store); simpl; [lia|].
    rewrite length_map, length_take. lia.
  - unfold _retrieve_with_bm25. destruct (load_chunk_documents store); [constructor|].
    apply Forall_forall. intros r Hr. apply list_elem_of_In, in_map_iff in Hr as (d' & <- & _).
    done.
  - apply load_chunk_documents_complete.
Qed.

(* ------------------------------------------------------------------ *)
(** ** Chunk identifiers *)

Lemma no_colon_app (a b : string) : no_colon (a +:+ b) = no_colon a && no_colon b.
Proof.
  induction a as [|c a IH]; [done|]. rewrite sapp_cons. simpl. rewrite IH. by destruct (negb _).
Qed.

Lemma hex_digit_no_colon (n : nat) : Ascii.eqb (hex_digit n) ":" = false.
Proof. do 15 (destruct n as [|n]; [reflexivity|]). reflexivity. Qed.

Lemma hexdigest_no_colon (d : list Byte.byte) : no_colon (hexdigest d) = true.
Proof.
  induction d as [|b d IH]; simpl; [done|].
  by rewrite !hex_digit_no_colon, IH.
Qed.

Lemma str_int_no_colon (n : nat) : no_colon (str_int n) = true.
Proof. unfold str_int. induction (Nat.to_uint n); simpl; auto. Qed.

Lemma sapp_cancel_l (p x y : string) : p +:+ x = p +:+ y -> x = y.
Proof.
  induction p as [|c p IH]; [done|]. intros H. change (String c (p +:+ x) = String c (p +:+ y)) in H.
  injection H. apply IH.
Qed.

Lemma colon_split_left (a b x y : string) :
  no_colon a = true -> no_colon b = true ->
  a +:+ String ":" x = b +:+ String ":" y -> a = b /\ x = y.
Proof.
  revert b. induction a as [|c a IH]; intros [|c' b] Ha Hb H;
    rewrite ?sapp_nil_l, ?sapp_cons in H; simpl in Ha, Hb.
  - injection H as ->. done.
  - injection H as Hc _. subst c'. done.
  - injection H as Hc _. subst c. done.
  - injection H as Hc H. subst c'. apply andb_prop in Ha as [_ Ha]. apply andb_prop in Hb as [_ Hb].
    destruct (IH b Ha Hb H) as [-> ->]. done.
Qed.

Lemma colon_split_right (a b x y : string) :
  no_colon x = true -> no_colon y = true ->
  a +:+ String ":" x = b +:+ String ":" y -> a = b /\ x = y.
Proof.
  revert b. induction a as [|c a IH]; intros [|c' b] Hx Hy H;
    rewrite ?sapp_nil_l, ?sapp_cons in H.
  - injection H as ->. done.
  - injection H as Hc Hxy. subst c' x. rewrite no_colon_app in Hx. simpl in Hx.
    destruct (no_colon b); discriminate.
  - injection H as Hc Hxy. subst c y. rewrite no_colon_app in Hy. simpl in Hy.
    destruct (no_colon a); discriminate.
  - injection H as Hc H. subst c'. destruct (IH b Hx Hy H) as [-> ->]. done.
Qed.

(** Two ids of one path with colon-free hashes agree on the hash. *)
Lemma doc_id_hash_inj (rel h1 h2 : string) (i j : nat) :
  no_colon h1 = true -> no_colon h2 = true ->
  doc_id rel h1 i = doc_id rel h2 j -> h1 = h2.
Proof.
  unfold doc_id. intros H1 H2 H. apply sapp_cancel_l in H. simpl in H.
  injection H as H. by destruct (colon_split_left _ _ _ _ H1 H2 H).
Qed.

(** The path of an id is determined by the id. *)
Lemma doc_id_path_inj (p1 p2 h1 h2 : string) (i j : nat) :
  no_colon h1 = true -> no_colon h2 = true ->
  doc_id p1 h1 i = doc_id p2 h2 j -> p1 = p2.
Proof.
  unfold doc_id. intros H1 H2 H.
  assert (E : forall p h (n : nat), p +:+ ":" +:+ h +:+ ":" +:+ str_int n =
                               (p +:+ String ":" h) +:+ String ":" (str_int n)).
  { intros. by rewrite sapp_assoc. }
  rewrite !E in H. apply colon_split_right in H as [H _]; [| apply str_int_no_colon ..].
  by apply colon_split_right in H as [-> _].
Qed.

Lemma owned_unique q1 q2 x : owned q1 x -> owned q2 x -> q1 = q2.
Proof.
  intros (h1 & i1 & Hh1 & ->) (h2 & i2 & Hh2 & Heq).
  exact (doc_id_path_inj _ _ _ _ _ _ Hh1 Hh2 Heq).
Qed.

Definition hex_value (c : ascii) : nat :=
  match String.index 0 (String c EmptyString) "0123456789abcdef" with
  | Some n => n
  | None => 0
  end.

Lemma hex_value_digit (n : nat) : n < 16 -> hex_value (hex_digit n) = n.
Proof. intros H. do 16 (destruct n as [|n]; [reflexivity|]). lia. Qed.

Lemma hex_pair_inj (n1 n2 : nat) :
  n1 < 256 -> n2 < 256 ->
  hex_digit (n1 / 16) = hex_digit (n2 / 16) -> hex_digit (n1 mod 16) = hex_digit (n2 mod 16) ->
  n1 = n2.
Proof.
  intros H1 H2 Hhi Hlo.
  apply (f_equal hex_value) in Hhi, Hlo.
  rewrite !hex_value_digit in Hhi by (apply Nat.Div0.div_lt_upper_bound; lia).
  rewrite !hex_value_digit in Hlo by (apply Nat.mod_upper_bound; lia).
  rewrite (Nat.div_mod_eq n1 16), (Nat.div_mod_eq n2 16). lia.
Qed.

Lemma hexdigest_inj (d1 d2 : list Byte.byte) : hexdigest d1 = hexdigest d2 -> d1 = d2.
Proof.
  revert d2. induction d1 as [|b1 d1 IH]; intros [|b2 d2] H; cbn [hexdigest] in H;
    try discriminate; [done|].
  injection H as Hhi Hlo H. f_equal; [|by apply IH].
  pose proof (Byte.to_nat_bounded b1). pose proof (Byte.to_nat_bounded b2).
  assert (Hn : Byte.to_nat b1 = Byte.to_nat b2) by (eapply hex_pair_inj; [lia | lia | exact Hhi | exact Hlo]).
  apply (f_equal Byte.of_nat) in Hn. rewrite !Byte.of_to_nat in Hn. by injection Hn.
Qed.

Lemma make_doc_ids_seq (rel h : string) (chunks : list string) :
  make_doc_ids rel h chunks = doc_id rel h <$> seq 0 (length chunks).
Proof. unfold make_doc_ids. apply imap_seq_0. Qed.

Lemma elem_of_make_doc_ids (rel h : string) (chunks : list string) x :
  x ∈ make_doc_ids rel h chunks -> exists i, x = doc_id rel h i.
Proof.
  rewrite make_doc_ids_seq. intros Hx. apply list_elem_of_fmap in Hx as (i & -> & _). by exists i.
Qed.

(** C7: a chunk's id is [path:content_hash:index]; the ids of a file are a
    function of its path and bytes, so identical content yields identical
    ids; and (taking the SHA-256 digest as collision-free) a file whose
    bytes changed gets a different content hash and none of its new ids
    equals any id derived from the old bytes. *)
Theorem chunk_ids_content_derived (E : ingest_env) (f1 f2 : source_file) :
  (forall b1 b2, env_sha256 E b1 = env_sha256 E b2 -> b1 = b2) ->
  (forall rel h chunks, make_doc_ids rel h chunks = doc_id rel h <$> seq 0 (length chunks)) /\
  (sf_rel_path f1 = sf_rel_path f2 -> sf_bytes f1 = sf_bytes f2 ->
     _sha256_file E f1 = _sha256_file E f2 /\ file_doc_ids E f1 = file_doc_ids E f2) /\
  (sf_bytes f1 <> sf_bytes f2 ->
     _sha256_file E f1 <> _sha256_file E f2 /\
     forall x y, x ∈ file_doc_ids E f1 -> y ∈ file_doc_ids E f2 -> x <> y).
Proof.
  intros Hinj. split; [apply make_doc_ids_seq|]. split.
  - destruct f1, f2; simpl. intros -> ->. done.
  - intros Hb.
    assert (Hh : _sha256_file E f1 <> _sha256_file E f2).
    { unfold _sha256_file. intros H. apply hexdigest_inj, Hinj in H. done. }
    split; [exact Hh|]. intros x y Hx Hy ->.
    unfold file_doc_ids in Hx, Hy.
    destruct (env_extract E f1); [|by apply not_elem_of_nil in Hx].
    destruct (env_extract E f2); [|by apply not_elem_of_nil in Hy].
    apply elem_of_make_doc_ids in Hx as (i & Hi), Hy as (j & Hj). rewrite Hi in Hj.
    apply Hh. unfold _sha256_file in *.
    pose proof (doc_id_path_inj _ _ _ _ _ _ (hexdigest_no_colon _) (hexdigest_no_colon _) Hj) as Hp.
    rewrite <- Hp in Hj.
    exact (doc_id_hash_inj _ _ _ _ _ (hexdigest_no_colon _) (hexdigest_no_colon _) Hj).
Qed.

Lemma chunk_ids_content_derived_witness :
  (forall b1 b2, env_sha256 (test_env no_fault) b1 = env_sha256 (test_env no_fault) b2 -> b1 = b2) /\
  (forall rel h chunks, make_doc_ids rel h chunks = doc_id rel h <$> seq 0 (length chunks)) /\
  (sf_rel_path file_a_v1 = sf_rel_path file_a_v2 -> sf_bytes file_a_v1 = sf_bytes file_a_v2 ->
     _sha256_file (test_env no_fault) file_a_v1 = _sha256_file (test_env no_fault) file_a_v2 /\
     file_doc_ids (test_env no_fault) file_a_v1 = file_doc_ids (test_env no_fault) file_a_v2) /\
  (sf_bytes file_a_v1 <> sf_bytes file_a_v2 ->
     _sha256_file (test_env no_fault) file_a_v1 <> _sha256_file (test_env no_fault) file_a_v2 /\
     forall x y, x ∈ file_doc_ids (test_env no_fault) file_a_v1 ->
                 y ∈ file_doc_ids (test_env no_fault) file_a_v2 -> x <> y).
Proof.
  assert (Hinj : forall b1 b2, env_sha256 (test_env no_fault) b1 = env_sha256 (test_env no_fault) b2 -> b1 = b2)
    by (intros b1 b2 H; exact H).
  split; [exact Hinj|].
  exact (chunk_ids_content_derived (test_env no_fault) file_a_v1 file_a_v2 Hinj).
Defined.

(** C10: a file whose manifest entry has an empty id list is never
    skipped by the presence check, whatever [force] and its hash: the
    iteration goes straight to extraction and processing. *)
Theorem empty_ids_never_skipped (E : ingest_env) (force : bool) (st : ingest_state)
    (f : source_file) (e : entry) :
  st_tracked st !! sf_rel_path f = Some e -> e_doc_ids e = [] ->
  skip_unchanged E force (st_tracked st) (st_vs st) (sf_rel_path f) (_sha256_file E f) = false /\
  ingest_file E force st f = extract_and_process E (discover st (sf_rel_path f)) f.
Proof.
  intros He Hids.
  assert (Hs : skip_unchanged E force (st_tracked st) (st_vs st) (sf_rel_path f) (_sha256_file E f) = false).
  { unfold skip_unchanged. rewrite He. simpl. rewrite Hids. simpl. by rewrite andb_false_r. }
  split; [exact Hs|]. unfold ingest_file. cbn [st_tracked st_vs discover]. by rewrite Hs.
Qed.

Lemma empty_ids_never_skipped_witness :
  let st := initial_state {| p_vs := ∅;
                             p_manifest := {[ "ingest/a.txt" := {| e_sha256 := "6869"; e_doc_ids := [] |} ]};
                             p_chunk_store := {[ "ingest/a.txt" := [] ]} |} in
  st_tracked st !! sf_rel_path file_a_v1 = Some {| e_sha256 := "6869"; e_doc_ids := [] |} /\
  e_doc_ids {| e_sha256 := "6869"; e_doc_ids := [] |} = [] /\
  _sha256_file (test_env no_fault) file_a_v1 = "6869" /\
  skip_unchanged (test_env no_fault) false (st_tracked st) (st_vs st) (sf_rel_path file_a_v1)
    (_sha256_file (test_env no_fault) file_a_v1) = false /\
  ingest_file (test_env no_fault) false st file_a_v1 =
    extract_and_process (test_env no_fault) (discover st (sf_rel_path file_a_v1)) file_a_v1.
Proof.
  intros st.
  assert (H1 : st_tracked st !! sf_rel_path file_a_v1 = Some {| e_sha256 := "6869"; e_doc_ids := [] |})
    by (vm_compute; reflexivity).
  assert (H2 : e_doc_ids {| e_sha256 := "6869"; e_doc_ids := [] |} = []) by reflexivity.
  split; [exact H1|]. split; [exact H2|]. split; [vm_compute; reflexivity|].
  exact (empty_ids_never_skipped (test_env no_fault) false st file_a_v1 _ H1 H2).
Defined.

(** ** The ingestion loop: what one iteration touches *)

Section IngestFacts.
Variable E : ingest_env.

Lemma skip_unchanged_ext force t1 t2 vs rel h :
  t1 !! rel = t2 !! rel ->
  skip_unchanged E force t1 vs rel h = skip_unchanged E force t2 vs rel h.
Proof. intros Ht. unfold skip_unchanged. by rewrite Ht. Qed.

Lemma ingest_file_frame force st f q :
  q <> sf_rel_path f ->
  st_tracked (ingest_file E force st f).1 !! q = st_tracked st !! q /\
  st_chunks (ingest_file E force st f).1 !! q = st_chunks st !! q.
Proof.
  intros Hq. unfold ingest_file, extract_and_process, process_text.
  repeat case_match; simpl; rewrite ?lookup_insert_ne by congruence; auto.
Qed.

Lemma ingest_file_discovered force st f :
  st_discovered (ingest_file E force st f).1 = {[sf_rel_path f]} ∪ st_discovered st.
Proof.
  unfold ingest_file, extract_and_process, process_text.
  repeat case_match; reflexivity.
Qed.

Lemma ingest_file_disabled force st f :
  st_can_embed st = false ->
  (ingest_file E force st f).2 = None /\
  st_can_embed (ingest_file E force st f).1 = false /\
  st_vs (ingest_file E force st f).1 = st_vs st.
Proof.
  intros Hc. unfold ingest_file, extract_and_process, process_text.
  repeat case_match; simpl in *; rewrite ?Hc, ?andb_false_r in *; try congruence; auto.
Qed.


(** With embeddings disabled, a file that is not skipped and has text gets
    its new chunks and keeps its previous ids. *)
Lemma ingest_file_disabled_entry force st g t :
  st_can_embed st = false ->
  skip_unchanged E force (st_tracked st) (st_vs st) (sf_rel_path g) (_sha256_file E g) = false ->
  env_extract E g = Some t -> is_blank t = false ->
  st_chunks (ingest_file E force st g).1 !! sf_rel_path g
    = Some (make_chunk_recs (_sha256_file E g) (env_split E t)) /\
  st_tracked (ingest_file E force st g).1 !! sf_rel_path g
    = Some {| e_sha256 := _sha256_file E g;
              e_doc_ids := default [] (e_doc_ids <$> st_tracked st !! sf_rel_path g) |}.
Proof.
  intros Hc Hs Hx Hb. unfold ingest_file. cbn [st_tracked st_vs discover]. rewrite Hs.
  unfold extract_and_process. cbn [st_tracked discover]. rewrite Hx.
  unfold process_text. rewrite Hb. cbn [st_can_embed store_chunks discover].
  rewrite Hc, andb_false_r. simpl. rewrite !lookup_insert_eq. done.
Qed.

Lemma ingest_loop_app force xs ys st :
  ingest_loop E force (xs ++ ys) st =
  match ingest_loop E force xs st with
  | (st', None) => ingest_loop E force ys st'
  | r => r
  end.
Proof.
  revert st. induction xs as [|x xs IH]; intros st; simpl; [done|].
  destruct (ingest_file E force st x) as [st1 [e|]]; [done|]. apply IH.
Qed.

Lemma ingest_loop_frame force files st st' eo q :
  ingest_loop E force files st = (st', eo) ->
  q ∉ map sf_rel_path files ->
  st_tracked st' !! q = st_tracked st !! q /\ st_chunks st' !! q = st_chunks st !! q.
Proof.
  revert st. induction files as [|f fs IH]; intros st Hl Hq; simpl in *.
  - by injection Hl as <- _.
  - apply not_elem_of_cons in Hq as [Hqf Hq].
    destruct (ingest_file_frame force st f q Hqf) as [Ht Hch].
    destruct (ingest_file E force st f) as [st1 [e|]] eqn:Hf; simpl in *.
    + injection Hl as <- _. auto.
    + destruct (IH st1 Hl Hq) as [-> ->]. auto.
Qed.

Lemma ingest_loop_discovered force files st st' :
  ingest_loop E force files st = (st', None) ->
  forall q, q ∈ st_discovered st' <-> q ∈ map sf_rel_path files \/ q ∈ st_discovered st.
Proof.
  revert st. induction files as [|f fs IH]; intros st Hl q; simpl in *.
  - injection Hl as <-. set_solver.
  - pose proof (ingest_file_discovered force st f) as Hd.
    destruct (ingest_file E force st f) as [st1 [e|]] eqn:Hf; simpl in *; [done|].
    rewrite (IH st1 Hl q), Hd. set_solver.
Qed.

Lemma ingest_loop_disabled force files st :
  st_can_embed st = false ->
  NoDup (map sf_rel_path files) ->
  exists st', ingest_loop E force files st = (st', None) /\
    st_can_embed st' = false /\ st_vs st' = st_vs st /\
    forall g t, g ∈ files ->
      skip_unchanged E force (st_tracked st) (st_vs st) (sf_rel_path g) (_sha256_file E g) = false ->
      env_extract E g = Some t -> is_blank t = false ->
      st_chunks st' !! sf_rel_path g = Some (make_chunk_recs (_sha256_file E g) (env_split E t)) /\
      st_tracked st' !! sf_rel_path g
        = Some {| e_sha256 := _sha256_file E g;
                  e_doc_ids := default [] (e_doc_ids <$> st_tracked st !! sf_rel_path g) |}.
Proof.
  revert st. induction files as [|f fs IH]; intros st Hc Hnd.
  - exists st. split_and!; [done..|]. intros g t Hg. by apply not_elem_of_nil in Hg.
  - simpl in Hnd. apply NoDup_cons in Hnd as [Hf Hnd].
    destruct (ingest_file_disabled force st f Hc) as (He & Hc1 & Hv1).
    pose proof (ingest_file_disabled_entry force st f) as Hentry.
    pose proof (fun q => ingest_file_frame force st f q) as Hframe.
    destruct (ingest_file E force st f) as [st1 eo] eqn:Hfile; simpl in *. subst eo.
    destruct (IH st1 Hc1 Hnd) as (st' & Hl & Hc' & Hv' & Hrest).
    exists st'. simpl. rewrite Hfile. split_and!; [done | done | congruence |].
    intros g t Hg Hs Hx Hb. apply elem_of_cons in Hg as [->|Hg].
    + destruct (Hentry t Hc Hs Hx Hb) as [Hch Htr].
      destruct (ingest_loop_frame force fs st1 st' None (sf_rel_path f) Hl Hf) as [-> ->].
      auto.
    + assert (Hne : sf_rel_path g <> sf_rel_path f).
      { intros Heq. apply Hf. rewrite <- Heq. by apply list_elem_of_fmap_2. }
      destruct (Hframe _ Hne) as [Ht1 _].
      rewrite <- Ht1. apply Hrest; [done| |done..].
      rewrite Hv1. erewrite skip_unchanged_ext; [exact Hs|]. done.
Qed.

(** [remove_stale] *)
Lemma remove_stale_frame missing st q :
  q ∉ missing ->
  st_tracked (remove_stale E missing st) !! q = st_tracked st !! q /\
  st_chunks (remove_stale E missing st) !! q = st_chunks st !! q.
Proof.
  revert st. induction missing as [|p ps IH]; intros st Hq; simpl; [done|].
  apply not_elem_of_cons in Hq as [Hqp Hq].
  split; [rewrite (proj1 (IH _ Hq)) | rewrite (proj2 (IH _ Hq))];
    simpl; by rewrite lookup_delete_ne by congruence.
Qed.

Lemma remove_stale_removed missing st q :
  q ∈ missing ->
  st_tracked (remove_stale E missing st) !! q = None /\
  st_chunks (remove_stale E missing st) !! q = None.
Proof.
  revert st. induction missing as [|p ps IH]; intros st Hq; simpl.
  - by apply not_elem_of_nil in Hq.
  - destruct (decide (q ∈ ps)) as [Hin|Hnin]; [by apply IH|].
    apply elem_of_cons in Hq as [->|Hq]; [|done].
    split; [rewrite (proj1 (remove_stale_frame ps _ p Hnin))
           | rewrite (proj2 (remove_stale_frame ps _ p Hnin))];
      simpl; by rewrite lookup_delete_eq.
Qed.

Lemma remove_stale_can_embed missing st :
  st_can_embed (remove_stale E missing st) = st_can_embed st.
Proof.
  revert st. induction missing as [|p ps IH]; intros st; simpl; [done|]. by rewrite IH.
Qed.

Lemma remove_stale_disabled missing st :
  st_can_embed st = false -> st_vs (remove_stale E missing st) = st_vs st.
Proof.
  revert st. induction missing as [|p ps IH]; intros st Hc; simpl; [done|].
  rewrite IH by done. simpl. by rewrite Hc, andb_false_r.
Qed.

Lemma remove_stale_vs_subseteq missing st :
  st_vs (remove_stale E missing st) ⊆ st_vs st.
Proof.
  revert st. induction missing as [|p ps IH]; intros st; simpl; [done|].
  etrans; [apply IH|]. simpl. unfold vs_delete. repeat case_match; set_solver.
Qed.

Lemma remove_stale_deletes missing st q e :
  st_can_embed st = true -> q ∈ missing -> st_tracked st !! q = Some e ->
  env_fault E (CallDelete (e_doc_ids e)) = None ->
  forall x, x ∈ e_doc_ids e -> x ∉ st_vs (remove_stale E missing st).
Proof.
  revert st. induction missing as [|p ps IH]; intros st Hc Hq He Hf x Hx; simpl.
  - by apply not_elem_of_nil in Hq.
  - destruct (decide (p = q)) as [<-|Hpq].
    + intros Hin. apply remove_stale_vs_subseteq in Hin. simpl in Hin.
      revert Hin. rewrite He. simpl. rewrite Hc, andb_true_r.
      destruct (bool_decide (e_doc_ids e = [])) eqn:Hb; simpl.
      * apply bool_decide_eq_true in Hb. rewrite Hb in Hx. by apply not_elem_of_nil in Hx.
      * rewrite Hf. unfold vs_delete. intros Hin.
        apply elem_of_difference in Hin as [_ Hin]. apply Hin.
        by apply elem_of_list_to_set.
    + apply elem_of_cons in Hq as [Hq|Hq]; [congruence|].
      eapply IH; [exact Hc|exact Hq| |exact Hf|exact Hx]. simpl. by rewrite lookup_delete_ne.
Qed.

Lemma remove_stale_keeps missing st x :
  (forall q, q ∈ missing -> x ∈ default [] (e_doc_ids <$> st_tracked st !! q) ->
     is_Some (env_fault E (CallDelete (default [] (e_doc_ids <$> st_tracked st !! q))))) ->
  x ∈ st_vs st -> x ∈ st_vs (remove_stale E missing st).
Proof.
  revert st. induction missing as [|p ps IH]; intros st Hq Hx; simpl; [done|].
  apply IH.
  - intros q Hq' Hxq. simpl in *. destruct (decide (p = q)) as [<-|Hne].
    + rewrite lookup_delete_eq in Hxq. simpl in Hxq. by apply not_elem_of_nil in Hxq.
    + rewrite lookup_delete_ne in * by done. apply Hq; [apply elem_of_cons; by right|done].
  - simpl. destruct (negb _ && _); [|done].
    destruct (env_fault E (CallDelete _)) eqn:Hf; [done|].
    unfold vs_delete. rewrite elem_of_difference, elem_of_list_to_set. split; [done|].
    intros Hin. destruct (Hq p ltac:(apply elem_of_cons; by left) Hin) as [? Hs].
    by rewrite Hf in Hs.
Qed.

Lemma missing_paths_spec st q :
  q ∈ missing_paths st <-> is_Some (st_tracked st !! q) /\ q ∉ st_discovered st.
Proof.
  unfold missing_paths. rewrite list_elem_of_filter, list_elem_of_fmap. split.
  - intros [Hq [[k v] [-> Hkv]]]. apply elem_of_map_to_list in Hkv. simpl. split; [by eexists|done].
  - intros [[v Hv] Hq]. split; [done|]. exists (q, v). split; [done|].
    by apply elem_of_map_to_list.
Qed.

End IngestFacts.

(** C1: if, in the middle of a run, the delete-then-add call for a changed
    file fails with an authorization error, the run still completes; no
    further Chroma write happens for the rest of the pass (the persisted
    collection is the one left by the failed call); the file's chunks are
    stored and its manifest entry keeps its previous ids; and every later
    file that is not skipped and has text gets its new chunks stored while
    its entry keeps its previous ids. *)
Theorem auth_failure_falls_back (E : ingest_env) (force : bool)
    (pre : list source_file) (f : source_file) (rest : list source_file)
    (p : persisted) (st : ingest_state) (text : string) (vs1 : vstore) (e : exc) :
  NoDup (map sf_rel_path (pre ++ f :: rest)) ->
  ingest_loop E force pre (initial_state p) = (st, None) ->
  st_can_embed st = true ->
  skip_unchanged E force (st_tracked st) (st_vs st) (sf_rel_path f) (_sha256_file E f) = false ->
  env_extract E f = Some text -> is_blank text = false -> env_split E text <> [] ->
  embed_attempt E (st_vs st) (default [] (e_doc_ids <$> st_tracked st !! sf_rel_path f))
    (make_doc_ids (sf_rel_path f) (_sha256_file E f) (env_split E text)) = (vs1, Some e) ->
  _is_embedding_auth_error e = true ->
  exists p' r, ingest_documents E force (pre ++ f :: rest) p = (p', inl r) /\
    p_vs p' = vs1 /\
    p_chunk_store p' !! sf_rel_path f
      = Some (make_chunk_recs (_sha256_file E f) (env_split E text)) /\
    p_manifest p' !! sf_rel_path f
      = Some {| e_sha256 := _sha256_file E f;
                e_doc_ids := default [] (e_doc_ids <$> st_tracked st !! sf_rel_path f) |} /\
    forall g tg, g ∈ rest ->
      skip_unchanged E force (st_tracked st) vs1 (sf_rel_path g) (_sha256_file E g) = false ->
      env_extract E g = Some tg -> is_blank tg = false ->
      p_chunk_store p' !! sf_rel_path g
        = Some (make_chunk_recs (_sha256_file E g) (env_split E tg)) /\
      p_manifest p' !! sf_rel_path g
        = Some {| e_sha256 := _sha256_file E g;
                  e_doc_ids := default [] (e_doc_ids <$> st_tracked st !! sf_rel_path g) |}.
Proof.
  intros Hnd Hpre Hc Hs Hx Hb Hne Hemb Hauth.
  rewrite fmap_app in Hnd. apply NoDup_app in Hnd as (_ & Hdisj & Hnd).
  simpl in Hnd. apply NoDup_cons in Hnd as [Hfr Hnd].
  set (rel := sf_rel_path f) in *. set (h := _sha256_file E f) in *.
  set (prev := default [] (e_doc_ids <$> st_tracked st !! rel)) in *.
  set (chunks := env_split E text) in *.
  (* the iteration on [f] *)
  set (st1 := finish_file (disable_embeddings (set_vs (store_chunks (discover st rel) rel
                (make_chunk_recs h chunks)) vs1)) rel h prev (length chunks)).
  assert (Hf : ingest_file E force st f = (st1, None)).
  { unfold ingest_file. fold rel h. cbn [st_tracked st_vs discover]. rewrite Hs.
    unfold extract_and_process. fold rel h. cbn [st_tracked discover]. fold prev. rewrite Hx.
    unfold process_text. fold chunks. rewrite Hb.
    cbn [st_can_embed st_vs store_chunks discover]. rewrite Hc.
    rewrite (bool_decide_eq_false_2 _ Hne). simpl. rewrite Hemb, Hauth. reflexivity. }
  destruct (ingest_loop_disabled E force rest st1 eq_refl Hnd) as (st' & Hl & Hc' & Hv' & Hrest).
  assert (Hloop : ingest_loop E force (pre ++ f :: rest) (initial_state p) = (st', None)).
  { rewrite ingest_loop_app, Hpre. simpl. by rewrite Hf. }
  pose proof (ingest_loop_discovered E force _ _ _ Hloop) as Hdisc.
  set (st'' := remove_stale E (missing_paths st') st').
  assert (Hkeep : forall q, q ∈ map sf_rel_path (pre ++ f :: rest) ->
            st_tracked st'' !! q = st_tracked st' !! q /\ st_chunks st'' !! q = st_chunks st' !! q).
  { intros q Hq. apply remove_stale_frame. rewrite missing_paths_spec. intros [_ Hn].
    apply Hn, Hdisc. by left. }
  eexists _, _. unfold ingest_documents. rewrite Hloop. split; [reflexivity|].
  cbn [p_vs p_chunk_store p_manifest]. fold st''.
  split; [unfold st''; rewrite remove_stale_disabled by done; by rewrite Hv'|].
  assert (Hfin : f ∈ pre ++ f :: rest) by (apply elem_of_app; right; apply elem_of_cons; by left).
  assert (Hrin : forall g, g ∈ rest -> g ∈ pre ++ f :: rest)
    by (intros g Hg; apply elem_of_app; right; by apply elem_of_cons; right).
  split; [|split].
  - rewrite (proj2 (Hkeep rel (list_elem_of_fmap_2 sf_rel_path _ _ Hfin))).
    rewrite (proj2 (ingest_loop_frame E force rest st1 st' None rel Hl Hfr)).
    simpl. by rewrite lookup_insert_eq.
  - rewrite (proj1 (Hkeep rel (list_elem_of_fmap_2 sf_rel_path _ _ Hfin))).
    rewrite (proj1 (ingest_loop_frame E force rest st1 st' None rel Hl Hfr)).
    simpl. by rewrite lookup_insert_eq.
  - intros g tg Hg Hsg Hxg Hbg.
    assert (Hgf : sf_rel_path g <> rel).
    { intros Heq. apply Hfr. rewrite <- Heq. by apply list_elem_of_fmap_2. }
    assert (Ht1 : st_tracked st1 !! sf_rel_path g = st_tracked st !! sf_rel_path g)
      by (simpl; by rewrite lookup_insert_ne by congruence).
    destruct (Hrest g tg Hg) as [Hch Htr]; [|done|done|].
    { erewrite skip_unchanged_ext; [exact Hsg|done]. }
    pose proof (Hkeep (sf_rel_path g) (list_elem_of_fmap_2 sf_rel_path _ _ (Hrin g Hg))) as [Hk1 Hk2].
    rewrite Hk1, Hk2, Hch, Htr, Ht1. done.
Qed.

Lemma auth_failure_falls_back_witness :
  exists p' r,
    ingest_documents (test_env add_unauthorized) false [file_a_v2; file_b] indexed_a_v1 = (p', inl r) /\
    p_vs p' = ∅ /\
    p_manifest p' !! "ingest/a.txt" = Some {| e_sha256 := "686f"; e_doc_ids := [id_a1] |} /\
    p_chunk_store p' !! "ingest/b.txt" = Some (make_chunk_recs "796f" ["yo"]) /\
    p_manifest p' !! "ingest/b.txt" = Some {| e_sha256 := "796f"; e_doc_ids := [] |}.
Proof.
  destruct (auth_failure_falls_back (test_env add_unauthorized) false [] file_a_v2 [file_b]
              indexed_a_v1 (initial_state indexed_a_v1) "ho" ∅ AuthenticationError)
    as (p' & r & H1 & H2 & _ & H4 & H5).
  - apply (bool_decide_unpack _). vm_compute. reflexivity.
  - reflexivity.
  - reflexivity.
  - vm_compute. reflexivity.
  - vm_compute. reflexivity.
  - vm_compute. reflexivity.
  - simpl. discriminate.
  - vm_compute. reflexivity.
  - reflexivity.
  - destruct (H5 file_b "yo") as [H6 H7].
    + apply elem_of_cons. left. reflexivity.
    + vm_compute. reflexivity.
    + vm_compute. reflexivity.
    + vm_compute. reflexivity.
    + exists p', r. split; [exact H1|]. split; [exact H2|].
      split; [etransitivity; [exact H4|vm_compute; reflexivity]|].
      split; [etransitivity; [exact H6|vm_compute; reflexivity]|].
      etransitivity; [exact H7|vm_compute; reflexivity].
Defined.

(** C2: the manifest can record ids whose vectors are gone.  Start from
    the result of a successful run over [file_a_v1]; change the file's
    bytes and run again.  The delete of the old id succeeds, then
    [add_documents] fails: with an authorization error the run completes
    and the saved manifest keeps the deleted id; with any other error the
    run aborts, the old manifest stays on disk, and it too names the
    deleted id. *)
Theorem manifest_keeps_deleted_ids :
  (ingest_documents (test_env no_fault) false [file_a_v1] empty_persisted).1 = indexed_a_v1 /\
  (let run := ingest_documents (test_env add_unauthorized) false [file_a_v2] indexed_a_v1 in
   (exists resp, run.2 = inl resp) /\
   p_manifest run.1 !! "ingest/a.txt" = Some {| e_sha256 := "686f"; e_doc_ids := [id_a1] |} /\
   id_a1 ∉ p_vs run.1) /\
  (let run := ingest_documents (test_env add_server_error) false [file_a_v2] indexed_a_v1 in
   run.2 = inr (APIStatusError 500) /\
   p_manifest run.1 !! "ingest/a.txt" = Some {| e_sha256 := "6869"; e_doc_ids := [id_a1] |} /\
   id_a1 ∉ p_vs run.1).
Proof.
  split; [vm_compute; reflexivity|]. split.
  - split; [eexists; vm_compute; reflexivity|].
    split; [vm_compute; reflexivity|].
    apply (bool_decide_unpack _). vm_compute. reflexivity.
  - split; [vm_compute; reflexivity|].
    split; [vm_compute; reflexivity|].
    apply (bool_decide_unpack _). vm_compute. reflexivity.
Qed.

(** C8, counterexample: [file_b] was removed from the directory and
    [file_a] changed; [add_documents] is refused with a 401 while
    re-indexing [file_a].  The run completes and [file_b]'s manifest and
    chunk-store entries are dropped, but no delete of its vectors is even
    attempted: its id is still in the collection. *)
Lemma stale_vectors_kept_cex :
  let run := ingest_documents (test_env add_unauthorized) false [file_a_v2] indexed_a_b in
  (exists resp, run.2 = inl resp) /\
  p_manifest run.1 !! "ingest/b.txt" = None /\
  p_chunk_store run.1 !! "ingest/b.txt" = None /\
  id_b ∈ p_vs run.1.
Proof.
  split; [eexists; vm_compute; reflexivity|].
  split; [vm_compute; reflexivity|]. split; [vm_compute; reflexivity|].
  apply (bool_decide_unpack _). vm_compute. reflexivity.
Qed.

(** C8, as the code behaves: once the loop over the discovered files has
    finished, the run completes whatever the stale deletes do; every
    manifest entry whose path was not discovered is gone from the saved
    manifest and chunk store; when embeddings are still enabled and the
    delete of its ids does not fail, its ids are gone from the collection;
    when that delete fails, its ids stay exactly as the loop left them
    (for a manifest whose ids were minted for their own entry's path, so
    that no other delete touches them); when embeddings were disabled
    during the run, no stale delete is attempted at all and the
    collection is the one the loop left. *)
Theorem stale_entries_removed (E : ingest_env) (force : bool) (files : list source_file)
    (p : persisted) (st : ingest_state) :
  ingest_loop E force files (initial_state p) = (st, None) ->
  exists p' r, ingest_documents E force files p = (p', inl r) /\
    (forall s e, p_manifest p !! s = Some e -> s ∉ map sf_rel_path files ->
       p_manifest p' !! s = None /\ p_chunk_store p' !! s = None /\
       (st_can_embed st = true -> env_fault E (CallDelete (e_doc_ids e)) = None ->
          forall x, x ∈ e_doc_ids e -> x ∉ p_vs p') /\
       (wf_manifest (p_manifest p) -> is_Some (env_fault E (CallDelete (e_doc_ids e))) ->
          forall x, x ∈ e_doc_ids e -> (x ∈ p_vs p' <-> x ∈ st_vs st))) /\
    (st_can_embed st = false -> p_vs p' = st_vs st).
Proof.
  intros Hl. unfold ingest_documents. rewrite Hl.
  eexists _, _. split; [reflexivity|]. cbn [p_vs p_manifest p_chunk_store].
  split.
  - intros s e Hs Hnot.
    assert (Hts : st_tracked st !! s = Some e).
    { rewrite (proj1 (ingest_loop_frame E force files _ st None s Hl Hnot)). exact Hs. }
    assert (Hm : s ∈ missing_paths st).
    { apply missing_paths_spec. split; [by eexists|].
      rewrite (ingest_loop_discovered E force files _ st Hl s). simpl. set_solver. }
    destruct (remove_stale_removed E _ st s Hm) as [H1 H2].
    split; [exact H1|]. split; [exact H2|]. split.
    + intros Hc Hf x Hx. exact (remove_stale_deletes E _ st s e Hc Hm Hts Hf x Hx).
    + intros Hwf Hf x Hx. split; [apply remove_stale_vs_subseteq|].
      apply remove_stale_keeps. intros q Hq Hxq.
      apply missing_paths_spec in Hq as [_ Hqd].
      assert (Hqf : q ∉ map sf_rel_path files).
      { intros Hin. apply Hqd. apply (ingest_loop_discovered E force files _ st Hl q). by left. }
      rewrite (proj1 (ingest_loop_frame E force files _ st None q Hl Hqf)) in Hxq |- *.
      cbn [st_tracked initial_state] in *. revert Hxq. destruct (p_manifest p !! q) as [e'|] eqn:He'; simpl; intros Hxq;
        [|by apply not_elem_of_nil in Hxq].
      rewrite (owned_unique q s x (Hwf q e' He' x Hxq) (Hwf s e Hs x Hx)) in He'.
      rewrite Hs in He'. injection He' as <-. exact Hf.
  - intros Hc. by apply remove_stale_disabled.
Qed.

Lemma indexed_a_b_wf : wf_manifest (p_manifest indexed_a_b).
Proof.
  intros q e He.
  change (({[ "ingest/a.txt" := {| e_sha256 := "6869"; e_doc_ids := [id_a1] |};
              "ingest/b.txt" := {| e_sha256 := "796f"; e_doc_ids := [id_b] |} ]}
           : gmap string entry) !! q = Some e) in He.
  apply lookup_insert_Some in He as [[<- <-]|[_ He]].
  - intros x Hx. apply list_elem_of_singleton in Hx as ->.
    exists "6869", 0. split; reflexivity.
  - apply lookup_singleton_Some in He as [<- <-].
    intros x Hx. apply list_elem_of_singleton in Hx as ->.
    exists "796f", 0. split; reflexivity.
Qed.

(** [file_b] was removed from the directory: its vectors are deleted when
    the delete succeeds, and stay when every delete fails. *)
Lemma stale_entries_removed_witness :
  (exists p' r, ingest_documents (test_env no_fault) false [file_a_v1] indexed_a_b = (p', inl r) /\
    p_manifest p' !! "ingest/b.txt" = None /\ p_chunk_store p' !! "ingest/b.txt" = None /\
    id_b ∉ p_vs p') /\
  (exists p' r, ingest_documents (test_env delete_unavailable) false [file_a_v1] indexed_a_b = (p', inl r) /\
    p_manifest p' !! "ingest/b.txt" = None /\ p_chunk_store p' !! "ingest/b.txt" = None /\
    id_b ∈ p_vs p').
Proof.
  split.
  - destruct (stale_entries_removed (test_env no_fault) false [file_a_v1] indexed_a_b
                (ingest_loop (test_env no_fault) false [file_a_v1] (initial_state indexed_a_b)).1)
      as (p' & r & H1 & H2 & _).
    + vm_compute. reflexivity.
    + destruct (H2 "ingest/b.txt" {| e_sha256 := "796f"; e_doc_ids := [id_b] |}) as (H3 & H4 & H5 & _).
      * vm_compute. reflexivity.
      * apply (bool_decide_unpack _). vm_compute. reflexivity.
      * exists p', r. split; [exact H1|]. split; [exact H3|]. split; [exact H4|].
        apply H5.
        -- vm_compute. reflexivity.
        -- reflexivity.
        -- apply elem_of_cons. left. reflexivity.
  - destruct (stale_entries_removed (test_env delete_unavailable) false [file_a_v1] indexed_a_b
                (ingest_loop (test_env delete_unavailable) false [file_a_v1] (initial_state indexed_a_b)).1)
      as (p' & r & H1 & H2 & _).
    + vm_compute. reflexivity.
    + destruct (H2 "ingest/b.txt" {| e_sha256 := "796f"; e_doc_ids := [id_b] |}) as (H3 & H4 & _ & H6).
      * vm_compute. reflexivity.
      * apply (bool_decide_unpack _). vm_compute. reflexivity.
      * exists p', r. split; [exact H1|]. split; [exact H3|]. split; [exact H4|].
        apply (H6 indexed_a_b_wf).
        -- eexists. reflexivity.
        -- apply elem_of_cons. left. reflexivity.
        -- apply (bool_decide_unpack _). vm_compute. reflexivity.
Defined.

(** ** Idempotence: lemmas *)

Lemma owned_make_doc_ids rel d chunks x :
  x ∈ make_doc_ids rel (hexdigest d) chunks -> owned rel x.
Proof.
  intros Hx. apply elem_of_make_doc_ids in Hx as [i ->].
  exists (hexdigest d), i. split; [apply hexdigest_no_colon|done].
Qed.

Lemma wf_manifest_insert m q h ids :
  wf_manifest m -> (forall x, x ∈ ids -> owned q x) ->
  wf_manifest (<[q := {| e_sha256 := h; e_doc_ids := ids |}]> m).
Proof.
  intros Hm Hids q' e He. destruct (decide (q = q')) as [<-|Hne].
  - rewrite lookup_insert_eq in He. injection He as <-. exact Hids.
  - rewrite lookup_insert_ne in He by done. exact (Hm _ _ He).
Qed.

Lemma wf_manifest_prev m q x :
  wf_manifest m -> x ∈ default [] (e_doc_ids <$> m !! q) -> owned q x.
Proof.
  intros Hm Hx. destruct (m !! q) as [e|] eqn:He; simpl in Hx.
  - exact (Hm _ _ He x Hx).
  - by apply not_elem_of_nil in Hx.
Qed.

(** ** Every manifest the code writes is well formed *)

Lemma wf_manifest_delete m q : wf_manifest m -> wf_manifest (delete q m).
Proof.
  intros Hm q' e He. destruct (decide (q = q')) as [<-|Hne].
  - by rewrite lookup_delete_eq in He.
  - rewrite lookup_delete_ne in He by done. exact (Hm _ _ He).
Qed.

Section ManifestWf.
Variable E : ingest_env.

Lemma ingest_file_wf force st f st' eo :
  ingest_file E force st f = (st', eo) ->
  wf_manifest (st_tracked st) -> wf_manifest (st_tracked st').
Proof.
  unfold ingest_file, extract_and_process, process_text. intros H Hwf.
  set (rel := sf_rel_path f) in *.
  assert (Hprev : forall x, x ∈ default [] (e_doc_ids <$> st_tracked st !! rel) -> owned rel x)
    by (intros x; by apply wf_manifest_prev).
  assert (Hnew : forall text x, x ∈ make_doc_ids rel (_sha256_file E f) (env_split E text) -> owned rel x)
    by (intros text x; apply owned_make_doc_ids).
  destruct (skip_unchanged _ _ _ _ _ _); [by injection H as <- _|].
  cbn [st_tracked discover] in *.
  destruct (env_extract E f) as [text|].
  2:{ injection H as <- _. by apply wf_manifest_insert. }
  destruct (is_blank text).
  { injection H as <- _. apply wf_manifest_insert; [done|]. intros x Hx. by apply not_elem_of_nil in Hx. }
  destruct (negb _ && _).
  2:{ injection H as <- _. by apply wf_manifest_insert. }
  destruct (embed_attempt _ _ _ _) as [vs' [e|]].
  - destruct (_is_embedding_auth_error e).
    + injection H as <- _. by apply wf_manifest_insert.
    + by injection H as <- _.
  - injection H as <- _. apply wf_manifest_insert; [done|]. apply Hnew.
Qed.

Lemma ingest_loop_wf force files st st' eo :
  ingest_loop E force files st = (st', eo) ->
  wf_manifest (st_tracked st) -> wf_manifest (st_tracked st').
Proof.
  revert st. induction files as [|f fs IH]; intros st Hl Hwf; simpl in Hl.
  - by injection Hl as <- _.
  - destruct (ingest_file E force st f) as [st1 [e|]] eqn:Hf.
    + injection Hl as <- _. exact (ingest_file_wf _ _ _ _ _ Hf Hwf).
    + exact (IH st1 Hl (ingest_file_wf _ _ _ _ _ Hf Hwf)).
Qed.

Lemma remove_stale_wf missing st :
  wf_manifest (st_tracked st) -> wf_manifest (st_tracked (remove_stale E missing st)).
Proof.
  revert st. induction missing as [|q qs IH]; intros st Hwf; simpl; [done|].
  apply IH. simpl. by apply wf_manifest_delete.
Qed.

End ManifestWf.

Lemma empty_manifest_wf : wf_manifest (p_manifest empty_persisted).
Proof. intros q e He. simpl in He. by rewrite lookup_empty in He. Qed.

Lemma ingest_documents_wf (E : ingest_env) (force : bool)
    (files : list source_file) (p p' : persisted) (res : ingest_response + exc) :
  wf_manifest (p_manifest p) ->
  ingest_documents E force files p = (p', res) ->
  wf_manifest (p_manifest p').
Proof.
  intros Hwf. unfold ingest_documents.
  destruct (ingest_loop E force files (initial_state p)) as [st [e|]] eqn:Hl;
    intros H; injection H as <- _; simpl; [done|].
  apply remove_stale_wf. exact (ingest_loop_wf E force files _ st None Hl Hwf).
Qed.

(** Every manifest [ingest_documents] saves lists, for each path, only ids
    minted for that path ([path:hash:index]), provided the manifest it
    started from does, as the empty manifest of a fresh install does.
    This holds whatever the collection and the extractor do: failed
    deletes or adds, the authorization fallback, blank or unreadable files,
    and runs that end in an exception. *)
Theorem ingest_documents_wf_manifest (E : ingest_env) (force : bool)
    (files : list source_file) (p p' : persisted) (res : ingest_response + exc) :
  wf_manifest (p_manifest p) ->
  ingest_documents E force files p = (p', res) ->
  wf_manifest (p_manifest p').
Proof.
  intros Hwf. unfold ingest_documents.
  destruct (ingest_loop E force files (initial_state p)) as [st [e|]] eqn:Hl;
    intros H; injection H as <- _; cbn [p_manifest]; [exact Hwf|].
  apply remove_stale_wf. exact (ingest_loop_wf E force files _ st None Hl Hwf).
Qed.

Lemma ingest_documents_wf_manifest_witness :
  wf_manifest (p_manifest (ingest_documents (test_env add_unauthorized) false [file_a_v1; file_b]
                             empty_persisted).1).
Proof.
  apply (ingest_documents_wf_manifest (test_env add_unauthorized) false [file_a_v1; file_b]
           empty_persisted _
           (ingest_documents (test_env add_unauthorized) false [file_a_v1; file_b] empty_persisted).2).
  - exact empty_manifest_wf.
  - vm_compute. reflexivity.
Defined.

Lemma existsb_ext_in {A} (f g : A -> bool) (l : list A) :
  (forall z, In z l -> f z = g z) -> existsb f l = existsb g l.
Proof.
  induction l as [|y l IH]; intros H; simpl; [done|].
  rewrite (H y (or_introl eq_refl)), IH; [done|]. intros z Hz. apply H. by right.
Qed.

Section Idempotence.
Variable E : ingest_env.
Hypothesis no_faults : forall c, env_fault E c = None.

Lemma has_persisted_ext vs1 vs2 ids :
  (forall x, x ∈ ids -> x ∈ vs1 <-> x ∈ vs2) ->
  _has_persisted_vectors E vs1 ids = _has_persisted_vectors E vs2 ids.
Proof.
  intros Hx. unfold _has_persisted_vectors. destruct ids as [|y ys]; [done|].
  case_match; [done|]. apply existsb_ext_in. intros z Hz.
  apply list_elem_of_In, (subseteq_take _ (y :: ys)) in Hz.
  apply bool_decide_ext. by apply Hx.
Qed.

Lemma skip_unchanged_vs_ext force t vs1 vs2 rel h :
  (forall x, x ∈ default [] (e_doc_ids <$> t !! rel) -> x ∈ vs1 <-> x ∈ vs2) ->
  skip_unchanged E force t vs1 rel h = skip_unchanged E force t vs2 rel h.
Proof. intros Hx. unfold skip_unchanged. by rewrite (has_persisted_ext vs1 vs2). Qed.

Lemma skip_unchanged_unforced force t vs rel h :
  skip_unchanged E force t vs rel h = true -> skip_unchanged E false t vs rel h = true.
Proof. unfold skip_unchanged. by destruct force. Qed.

Lemma has_persisted_head vs x xs :
  x ∈ vs -> _has_persisted_vectors E vs (x :: xs) = true.
Proof.
  intros Hx. unfold _has_persisted_vectors. rewrite no_faults. simpl.
  rewrite bool_decide_eq_true_2 by done. done.
Qed.

Lemma embed_attempt_nofault vs prev ids :
  exists vs0, embed_attempt E vs prev ids = (vs_add vs0 ids, None) /\
    forall x, x ∈ vs0 <-> x ∈ vs /\ x ∉ prev.
Proof.
  unfold embed_attempt. destruct prev as [|y ys].
  - exists vs. rewrite no_faults. split; [done|]. intros x. split; [|tauto].
    intros Hx. split; [done|]. apply not_elem_of_nil.
  - rewrite !no_faults. exists (vs_delete vs (y :: ys)). split; [done|].
    intros x. unfold vs_delete. rewrite elem_of_difference, elem_of_list_to_set. done.
Qed.

Lemma settled_transfer st st' g :
  settled E st g ->
  st_tracked st' !! sf_rel_path g = st_tracked st !! sf_rel_path g ->
  (forall x, x ∈ default [] (e_doc_ids <$> st_tracked st !! sf_rel_path g) ->
     x ∈ st_vs st' <-> x ∈ st_vs st) ->
  settled E st' g.
Proof.
  intros [Hs|Hrest] Ht Hx; [left|by right].
  rewrite (skip_unchanged_ext E false _ (st_tracked st)) by done.
  rewrite (skip_unchanged_vs_ext false _ _ (st_vs st)); [exact Hs|].
  done.
Qed.

Section FirstRun.
Hypothesis split_nonempty : forall t, is_blank t = false -> env_split E t <> [].

Lemma ingest_file_nofault force st f :
  st_can_embed st = true -> wf_manifest (st_tracked st) ->
  exists st1, ingest_file E force st f = (st1, None) /\
    st_can_embed st1 = true /\ wf_manifest (st_tracked st1) /\
    (forall x, ~ owned (sf_rel_path f) x -> x ∈ st_vs st1 <-> x ∈ st_vs st) /\
    settled E st1 f.
Proof.
  intros Hc Hwf. unfold ingest_file. cbn [st_tracked st_vs discover].
  set (rel := sf_rel_path f). set (h := _sha256_file E f).
  destruct (skip_unchanged E force (st_tracked st) (st_vs st) rel h) eqn:Hs.
  { eexists. split; [reflexivity|]. split_and!; [done|done|done|].
    left. by apply skip_unchanged_unforced in Hs. }
  unfold extract_and_process. fold rel h. cbn [st_tracked discover].
  set (prev := default [] (e_doc_ids <$> st_tracked st !! rel)).
  assert (Hprev : forall x, x ∈ prev -> owned rel x) by (intros x; by apply wf_manifest_prev).
  destruct (env_extract E f) as [text|] eqn:Hx.
  2:{ eexists. split; [reflexivity|]. split_and!; [done| |done|by right; left].
      by apply wf_manifest_insert. }
  unfold process_text. destruct (is_blank text) eqn:Hb.
  { eexists. split; [reflexivity|]. split_and!; [done| |done|by right; right; exists text].
    apply wf_manifest_insert; [done|]. intros x Hx'. by apply not_elem_of_nil in Hx'. }
  cbn [st_can_embed st_vs store_chunks discover]. rewrite Hc.
  pose proof (split_nonempty text Hb) as Hne.
  rewrite (bool_decide_eq_false_2 _ Hne). simpl.
  set (ids := make_doc_ids rel h (env_split E text)).
  assert (Hids : forall x, x ∈ ids -> owned rel x) by (intros x; apply owned_make_doc_ids).
  destruct (embed_attempt_nofault (st_vs st) prev ids) as (vs0 & -> & Hvs0).
  eexists. split; [reflexivity|]. cbn [st_can_embed finish_file set_vs store_chunks discover].
  split_and!; [done|by apply wf_manifest_insert| |].
  - intros x Hno. change (x ∈ vs_add vs0 ids <-> x ∈ st_vs st). unfold vs_add. rewrite elem_of_union, elem_of_list_to_set, Hvs0.
    split.
    + intros [[? _]|Hin]; [done|]. by apply Hids in Hin.
    + intros Hin. left. split; [done|]. intros Hp. by apply Hno, Hprev.
  - left. unfold skip_unchanged. cbn [st_tracked st_vs finish_file set_vs store_chunks discover].
    rewrite lookup_insert_eq. simpl.
    rewrite bool_decide_eq_true_2 by done. simpl.
    unfold ids. destruct (env_split E text) as [|c cs]; [done|].
    apply has_persisted_head.
    unfold vs_add. apply elem_of_union_r, elem_of_list_to_set.
    unfold make_doc_ids. simpl. apply elem_of_cons. by left.
Qed.

Lemma first_run_loop force files st :
  NoDup (map sf_rel_path files) ->
  st_can_embed st = true -> wf_manifest (st_tracked st) ->
  exists st', ingest_loop E force files st = (st', None) /\
    st_can_embed st' = true /\ wf_manifest (st_tracked st') /\
    (forall x, (forall g, g ∈ files -> ~ owned (sf_rel_path g) x) ->
       x ∈ st_vs st' <-> x ∈ st_vs st) /\
    (forall g, g ∈ files -> settled E st' g).
Proof.
  revert st. induction files as [|f fs IH]; intros st Hnd Hc Hwf.
  - exists st. split_and!; [done..| |].
    + done.
    + intros g Hg. by apply not_elem_of_nil in Hg.
  - simpl in Hnd. apply NoDup_cons in Hnd as [Hf Hnd].
    destruct (ingest_file_nofault force st f Hc Hwf) as (st1 & Hfile & Hc1 & Hwf1 & Hv1 & Hset1).
    destruct (IH st1 Hnd Hc1 Hwf1) as (st' & Hl & Hc' & Hwf' & Hv' & Hset').
    exists st'. simpl. rewrite Hfile. split_and!; [done|done|done| |].
    + intros x Hx. rewrite Hv'.
      * apply Hv1. apply Hx. apply elem_of_cons. by left.
      * intros g Hg. apply Hx. apply elem_of_cons. by right.
    + intros g Hg. apply elem_of_cons in Hg as [->|Hg]; [|by apply Hset'].
      apply (settled_transfer st1); [done| |].
      * exact (proj1 (ingest_loop_frame E force fs st1 st' None _ Hl Hf)).
      * intros x Hx. apply Hv'. intros g Hg Hown.
        apply Hf. rewrite (owned_unique _ _ x (wf_manifest_prev _ _ _ Hwf1 Hx) Hown).
        by apply list_elem_of_fmap_2.
Qed.

End FirstRun.

Lemma ingest_file_settled st f :
  settled E st f ->
  exists st1, ingest_file E false st f = (st1, None) /\
    st_vs st1 = st_vs st /\ st_indexed st1 = st_indexed st /\
    st_total st1 = st_total st /\ st_skipped st1 = st_skipped st ++ [sf_rel_path f].
Proof.
  intros Hset. unfold ingest_file. cbn [st_tracked st_vs discover].
  destruct (skip_unchanged E false (st_tracked st) (st_vs st) (sf_rel_path f) (_sha256_file E f)) eqn:Hs.
  { eexists. split; [reflexivity|]. done. }
  destruct Hset as [Hs'|[Hx|(t & Hx & Hb)]]; [congruence| |].
  - unfold extract_and_process. rewrite Hx. eexists. split; [reflexivity|]. done.
  - unfold extract_and_process. rewrite Hx. unfold process_text. rewrite Hb.
    eexists. split; [reflexivity|]. done.
Qed.

Lemma second_run_loop files st :
  NoDup (map sf_rel_path files) ->
  (forall g, g ∈ files -> settled E st g) ->
  exists st', ingest_loop E false files st = (st', None) /\
    st_indexed st' = st_indexed st /\ st_total st' = st_total st /\
    st_skipped st' = st_skipped st ++ map sf_rel_path files.
Proof.
  revert st. induction files as [|f fs IH]; intros st Hnd Hset.
  - exists st. by rewrite app_nil_r.
  - simpl in Hnd. apply NoDup_cons in Hnd as [Hf Hnd].
    pose proof (fun q => ingest_file_frame E false st f q) as Hframe.
    destruct (ingest_file_settled st f) as (st1 & Hfile & Hv1 & Hi1 & Ht1 & Hs1);
      [apply Hset, elem_of_cons; by left|].
    rewrite Hfile in Hframe. simpl in Hframe.
    destruct (IH st1 Hnd) as (st' & Hl & Hi' & Ht' & Hs').
    { intros g Hg. apply (settled_transfer st); [apply Hset, elem_of_cons; by right| |].
      - apply Hframe. intros Heq. apply Hf. rewrite <- Heq. by apply list_elem_of_fmap_2.
      - intros x _. by rewrite Hv1. }
    exists st'. simpl. rewrite Hfile. split_and!; [done|congruence|congruence|].
    rewrite Hs', Hs1. by rewrite <- app_assoc.
Qed.

End Idempotence.

Lemma remove_stale_counters E missing st :
  st_indexed (remove_stale E missing st) = st_indexed st /\
  st_total (remove_stale E missing st) = st_total st /\
  st_skipped (remove_stale E missing st) = st_skipped st.
Proof.
  revert st. induction missing as [|p ps IH]; intros st; simpl; [done|].
  match goal with |- context [remove_stale E ps ?s] => destruct (IH s) as (-> & -> & ->) end.
  done.
Qed.

Lemma remove_stale_vs_frame E missing st x :
  (forall q, q ∈ missing -> x ∉ default [] (e_doc_ids <$> st_tracked st !! q)) ->
  x ∈ st_vs (remove_stale E missing st) <-> x ∈ st_vs st.
Proof.
  revert st. induction missing as [|p ps IH]; intros st Hx; simpl; [done|].
  rewrite IH.
  - simpl. assert (Hp : x ∉ default [] (e_doc_ids <$> st_tracked st !! p))
      by (apply Hx, elem_of_cons; by left).
    repeat case_match; try done. unfold vs_delete.
    rewrite elem_of_difference, elem_of_list_to_set. tauto.
  - intros q Hq. simpl. destruct (decide (p = q)) as [<-|Hne].
    + rewrite lookup_delete_eq. simpl. apply not_elem_of_nil.
    + rewrite lookup_delete_ne by done. apply Hx. apply elem_of_cons. by right.
Qed.

(** C3, counterexample: every [add_documents] call is refused with a 401.
    The first run over [file_a_v1] completes (it falls back and records no
    ids); a second, unforced run over the same unchanged file finds no
    recorded id to sample, re-indexes the file and reports one chunk. *)
Lemma second_run_reindexes_cex :
  let run1 := ingest_documents (test_env add_unauthorized) false [file_a_v1] empty_persisted in
  let run2 := ingest_documents (test_env add_unauthorized) false [file_a_v1] run1.1 in
  (exists r1, run1.2 = inl r1) /\
  run2.2 = inl {| indexed_files := ["ingest/a.txt"]; skipped_files := [];
                  total_chunks_added := 1 |}.
Proof.
  split; [eexists; vm_compute; reflexivity|]. vm_compute. reflexivity.
Qed.

(** The manifest condition of C3 cannot be dropped: from a hand-edited
    manifest in which the stale entry of [b.txt] lists [a.txt]'s id, no
    call fails, the first run skips [a.txt] and then deletes the shared id
    with [b.txt]'s entry, so the second run finds no sampled id and
    re-indexes [a.txt]. *)
Lemma second_run_reindexes_shared_id :
  let run1 := ingest_documents (test_env no_fault) false [file_a_v1] shared_id_persisted in
  let run2 := ingest_documents (test_env no_fault) false [file_a_v1] run1.1 in
  run1.2 = inl {| indexed_files := []; skipped_files := ["ingest/a.txt"];
                  total_chunks_added := 0 |} /\
  run2.2 = inl {| indexed_files := ["ingest/a.txt"]; skipped_files := [];
                  total_chunks_added := 1 |}.
Proof. split; vm_compute; reflexivity. Qed.

(** C3, under the conditions that make it hold: no Chroma call fails in
    either run (the counterexample above shows an authorization error
    breaks it); the splitter gives at least one chunk for text that is not
    blank ([RecursiveCharacterTextSplitter] strips its chunks and drops
    only those that strip to nothing, and [is_blank] is Python's
    [not text.strip()], so a non-space character always survives); the
    scan lists each path once; and every id in the manifest was minted
    for its entry's path.  The last condition holds of every manifest
    [ingest_documents] saves, starting from an empty one
    ([ingest_documents_wf]); [second_run_reindexes_shared_id]
    shows it is needed.  Then the first run completes, whatever its
    [force], and a second unforced run over the same files completes,
    indexes nothing, adds no chunk and reports every file as skipped. *)
Theorem unchanged_second_run_indexes_nothing (E : ingest_env) (force1 : bool)
    (files : list source_file) (p : persisted) :
  (forall c, env_fault E c = None) ->
  (forall t, is_blank t = false -> env_split E t <> []) ->
  NoDup (map sf_rel_path files) ->
  wf_manifest (p_manifest p) ->
  exists p1 r1 p2 r2,
    ingest_documents E force1 files p = (p1, inl r1) /\
    ingest_documents E false files p1 = (p2, inl r2) /\
    indexed_files r2 = [] /\ total_chunks_added r2 = 0 /\
    skipped_files r2 = map sf_rel_path files.
Proof.
  intros Hnf Hsplit Hnd Hwf.
  destruct (first_run_loop E Hnf Hsplit force1 files (initial_state p) Hnd eq_refl Hwf)
    as (st & Hl & _ & Hwf' & _ & Hset).
  pose proof (ingest_loop_discovered E force1 files _ st Hl) as Hdisc.
  set (rs := remove_stale E (missing_paths st) st).
  set (p1 := {| p_vs := st_vs rs; p_manifest := st_tracked rs; p_chunk_store := st_chunks rs |}).
  assert (Hnotmissing : forall g, g ∈ files -> sf_rel_path g ∉ missing_paths st).
  { intros g Hg. rewrite missing_paths_spec. intros [_ Hn]. apply Hn, Hdisc. left.
    by apply list_elem_of_fmap_2. }
  assert (Hset2 : forall g, g ∈ files -> settled E (initial_state p1) g).
  { intros g Hg. apply (settled_transfer E st); [by apply Hset| |].
    - exact (proj1 (remove_stale_frame E _ st _ (Hnotmissing g Hg))).
    - intros x Hx. apply remove_stale_vs_frame. intros q Hq Hxq.
      pose proof (wf_manifest_prev _ _ _ Hwf' Hx) as Hog.
      pose proof (wf_manifest_prev _ _ _ Hwf' Hxq) as Hoq.
      apply (Hnotmissing g Hg). by rewrite (owned_unique _ _ x Hog Hoq). }
  destruct (second_run_loop E files (initial_state p1) Hnd Hset2)
    as (st2 & Hl2 & Hi2 & Ht2 & Hs2).
  destruct (remove_stale_counters E (missing_paths st2) st2) as (Hi3 & Ht3 & Hs3).
  exists p1. do 3 eexists.
  split; [unfold ingest_documents; rewrite Hl; reflexivity|].
  split; [unfold ingest_documents; rewrite Hl2; reflexivity|]. cbn [indexed_files total_chunks_added skipped_files].
  rewrite Hi3, Ht3, Hs3, Hi2, Ht2, Hs2. done.
Qed.

Lemma unchanged_second_run_indexes_nothing_witness :
  exists p1 r1 p2 r2,
    ingest_documents (test_env no_fault) false [file_a_v2; file_b] indexed_a_v1 = (p1, inl r1) /\
    ingest_documents (test_env no_fault) false [file_a_v2; file_b] p1 = (p2, inl r2) /\
    indexed_files r2 = [] /\ total_chunks_added r2 = 0 /\
    skipped_files r2 = map sf_rel_path [file_a_v2; file_b].
Proof.
  apply (unchanged_second_run_indexes_nothing (test_env no_fault) false [file_a_v2; file_b] indexed_a_v1).
  - intros c. reflexivity.
  - intros t _. simpl. discriminate.
  - apply (bool_decide_unpack _). vm_compute. reflexivity.
  - intros q e He.
    change (({[ "ingest/a.txt" := {| e_sha256 := "6869"; e_doc_ids := [id_a1] |} ]} : gmap string entry) !! q = Some e) in He.
    apply lookup_singleton_Some in He as [<- <-].
    intros x Hx. apply list_elem_of_singleton in Hx as ->.
    exists "6869", 0. split; reflexivity.
Defined.

(** ** Further properties of [ingest_documents] *)

Section IngestAccounting.
Variable E : ingest_env.

(** What one successful iteration records for its file. *)
Lemma ingest_file_outcome force st f st1 :
  ingest_file E force st f = (st1, None) ->
  e_sha256 <$> st_tracked st1 !! sf_rel_path f = Some (_sha256_file E f) /\
  ((st_indexed st1 = st_indexed st /\ st_skipped st1 = st_skipped st ++ [sf_rel_path f] /\
    st_total st1 = st_total st /\
    (force = true -> env_extract E f = None \/
                     exists t, env_extract E f = Some t /\ is_blank t = true)) \/
   (exists t, env_extract E f = Some t /\ is_blank t = false /\
    st_indexed st1 = st_indexed st ++ [sf_rel_path f] /\ st_skipped st1 = st_skipped st /\
    st_total st1 = st_total st + length (env_split E t) /\
    st_chunks st1 !! sf_rel_path f
      = Some (make_chunk_recs (_sha256_file E f) (env_split E t)))).
Proof.
  unfold ingest_file. cbn [st_tracked st_vs discover].
  set (rel := sf_rel_path f). set (h := _sha256_file E f).
  destruct (skip_unchanged E force (st_tracked st) (st_vs st) rel h) eqn:Hs.
  { intros [= <-]. unfold skip_unchanged in Hs. apply andb_prop in Hs as [Hs _].
    apply andb_prop in Hs as [Hf Hs]. apply bool_decide_eq_true in Hs.
    split; [exact Hs|]. left. split_and!; try done. intros ->. done. }
  unfold extract_and_process. fold rel h. cbn [st_tracked discover].
  destruct (env_extract E f) as [text|] eqn:Hx.
  2:{ intros [= <-]. simpl. rewrite lookup_insert_eq. split; [done|].
      left. split_and!; try done. by left. }
  unfold process_text. destruct (is_blank text) eqn:Hb.
  { intros [= <-]. simpl. rewrite lookup_insert_eq. split; [done|].
    left. split_and!; try done. right. by exists text. }
  set (prev := default [] (e_doc_ids <$> st_tracked st !! rel)).
  set (ids := make_doc_ids rel h (env_split E text)).
  assert (Hind : forall st2 ids',
    st1 = finish_file st2 rel h ids' (length (env_split E text)) ->
    st_indexed st2 = st_indexed st -> st_skipped st2 = st_skipped st -> st_total st2 = st_total st ->
    st_chunks st2 !! rel = Some (make_chunk_recs h (env_split E text)) ->
    e_sha256 <$> st_tracked st1 !! rel = Some h /\
    ((st_indexed st1 = st_indexed st /\ st_skipped st1 = st_skipped st ++ [rel] /\
      st_total st1 = st_total st /\
      (force = true -> Some text = None \/ exists t, Some text = Some t /\ is_blank t = true)) \/
     (exists t, Some text = Some t /\ is_blank t = false /\
      st_indexed st1 = st_indexed st ++ [rel] /\ st_skipped st1 = st_skipped st /\
      st_total st1 = st_total st + length (env_split E t) /\
      st_chunks st1 !! rel = Some (make_chunk_recs h (env_split E t))))).
  { intros st2 ids' -> Hi Hsk Ht Hc. simpl. rewrite lookup_insert_eq. split; [done|].
    right. exists text. split_and!; try done; simpl; congruence. }
  destruct (negb (bool_decide (env_split E text = [])) && st_can_embed st) eqn:Hcond;
    cbn [st_can_embed store_chunks discover]; rewrite Hcond.
  - destruct (embed_attempt _ _ _ _) as [vs' [e|]].
    + destruct (_is_embedding_auth_error e); [|intros [=]].
      intros [= <-]. eapply Hind; [reflexivity|..]; simpl; try done. by rewrite lookup_insert_eq.
    + intros [= <-]. eapply Hind; [reflexivity|..]; simpl; try done. by rewrite lookup_insert_eq.
  - intros [= <-]. eapply Hind; [reflexivity|..]; simpl; try done. by rewrite lookup_insert_eq.
Qed.


Lemma ingest_loop_accounting force files st st' :
  ingest_loop E force files st = (st', None) -> NoDup (map sf_rel_path files) ->
  st_indexed st' ++ st_skipped st' ≡ₚ st_indexed st ++ st_skipped st ++ map sf_rel_path files /\
  (forall f, f ∈ files -> e_sha256 <$> st_tracked st' !! sf_rel_path f = Some (_sha256_file E f)) /\
  exists new, st_indexed st' = st_indexed st ++ new /\
    (forall q, q ∈ new -> q ∈ map sf_rel_path files) /\
    st_total st' = st_total st + sum_list_with (fun q => length (default [] (st_chunks st' !! q))) new /\
    (force = true -> forall f t, f ∈ files -> env_extract E f = Some t -> is_blank t = false ->
       sf_rel_path f ∈ new).
Proof.
  revert st. induction files as [|f fs IH]; intros st Hl Hnd; simpl in Hl.
  - injection Hl as <-. split_and!.
    + by rewrite !app_nil_r.
    + intros f Hf. by apply not_elem_of_nil in Hf.
    + exists []. split_and!; [by rewrite app_nil_r| |simpl; lia|].
      * intros q Hq. by apply not_elem_of_nil in Hq.
      * intros _ f t Hf. by apply not_elem_of_nil in Hf.
  - simpl in Hnd. apply NoDup_cons in Hnd as [Hf Hnd].
    destruct (ingest_file E force st f) as [st1 [e|]] eqn:Hfile; [discriminate|].
    destruct (ingest_file_outcome force st f st1 Hfile) as [Hh Hcase].
    destruct (IH st1 Hl Hnd) as (Hperm & Hhash & new & Hnew & Hsub & Htot & Hforce).
    destruct (ingest_loop_frame E force fs st1 st' None (sf_rel_path f) Hl Hf) as [Htf Hcf].
    assert (Hin : forall g, g ∈ f :: fs -> g = f \/ g ∈ fs) by (intros g Hg; by apply elem_of_cons).
    split_and!.
    + rewrite Hperm. simpl.
      destruct Hcase as [(Hi & Hs & _)|(t & _ & _ & Hi & Hs & _)]; rewrite Hi, Hs.
      * by rewrite <- app_assoc.
      * rewrite <- !app_assoc. simpl. apply Permutation_app_head.
        by rewrite Permutation_middle.
    + intros g Hg. apply Hin in Hg as [->|Hg]; [by rewrite Htf|by apply Hhash].
    + destruct Hcase as [(Hi & Hs & Ht & Hfc)|(t & Hx & Hb & Hi & Hs & Ht & Hc)].
      * exists new. split_and!.
        -- by rewrite Hnew, Hi.
        -- intros q Hq. apply elem_of_cons. right. by apply Hsub.
        -- by rewrite Htot, Ht.
        -- intros Hft g t Hg Hx Hb. apply Hin in Hg as [->|Hg]; [|by apply (Hforce Hft g t)].
           destruct (Hfc Hft) as [Hx'|(t' & Hx' & Hb')]; congruence.
      * exists (sf_rel_path f :: new). split_and!.
        -- by rewrite Hnew, Hi, <- app_assoc.
        -- intros q Hq. apply elem_of_cons in Hq as [->|Hq]; apply elem_of_cons; [by left|right; by apply Hsub].
        -- rewrite Htot, Ht. simpl. rewrite Hcf, Hc. simpl.
           unfold make_chunk_recs. rewrite length_imap. lia.
        -- intros Hft g t' Hg Hx' Hb'. apply Hin in Hg as [->|Hg]; apply elem_of_cons; [by left|].
           right. exact (Hforce Hft g t' Hg Hx' Hb').
Qed.

End IngestAccounting.

Lemma sum_list_with_ext_in {A} (f g : A -> nat) (l : list A) :
  (forall x, x ∈ l -> f x = g x) -> sum_list_with f l = sum_list_with g l.
Proof.
  induction l as [|y l IH]; intros H; simpl; [done|].
  rewrite (H y), IH; [done| |by apply elem_of_cons; left].
  intros x Hx. apply H, elem_of_cons. by right.
Qed.

Lemma ingest_file_raises E force st f e :
  (ingest_file E force st f).2 = Some e -> _is_embedding_auth_error e = false.
Proof.
  unfold ingest_file, extract_and_process, process_text.
  repeat case_match; simpl; intros; simplify_eq; done.
Qed.

Lemma ingest_loop_raises E force files st st' e :
  ingest_loop E force files st = (st', Some e) -> _is_embedding_auth_error e = false.
Proof.
  revert st. induction files as [|f fs IH]; intros st Hl; simpl in Hl; [done|].
  destruct (ingest_file E force st f) as [st1 [e'|]] eqn:Hf.
  - injection Hl as _ ->. apply (ingest_file_raises E force st f). by rewrite Hf.
  - exact (IH _ Hl).
Qed.

Lemma ingest_documents_inl E force files p p' r :
  ingest_documents E force files p = (p', inl r) ->
  exists st, ingest_loop E force files (initial_state p) = (st, None) /\
    let st' := remove_stale E (missing_paths st) st in
    p' = {| p_vs := st_vs st'; p_manifest := st_tracked st'; p_chunk_store := st_chunks st' |} /\
    r = {| indexed_files := st_indexed st'; skipped_files := st_skipped st';
           total_chunks_added := st_total st' |}.
Proof.
  unfold ingest_documents. destruct (ingest_loop E force files (initial_state p)) as [st [e|]].
  - discriminate.
  - intros [= <- <-]. by exists st.
Qed.

(** A path of the scan is never a stale path of the same run. *)
Lemma scanned_not_missing E force files p st q :
  ingest_loop E force files (initial_state p) = (st, None) ->
  q ∈ map sf_rel_path files -> q ∉ missing_paths st.
Proof.
  intros Hl Hq. rewrite missing_paths_spec. intros [_ Hn]. apply Hn.
  apply (ingest_loop_discovered E force files _ st Hl). by left.
Qed.

(** X1: every scanned file is reported exactly once, as indexed or as
    skipped. *)
Theorem ingest_reports_each_file_once (E : ingest_env) (force : bool)
    (files : list source_file) (p p' : persisted) (r : ingest_response) :
  NoDup (map sf_rel_path files) ->
  ingest_documents E force files p = (p', inl r) ->
  indexed_files r ++ skipped_files r ≡ₚ map sf_rel_path files.
Proof.
  intros Hnd Hrun. apply ingest_documents_inl in Hrun as (st & Hl & _ & ->). simpl.
  destruct (remove_stale_counters E (missing_paths st) st) as (-> & _ & ->).
  destruct (ingest_loop_accounting E force files _ st Hl Hnd) as (Hperm & _). exact Hperm.
Qed.

(** X2: after a completed run the manifest has an entry for exactly the
    scanned paths, each recording its file's current SHA-256. *)
Theorem manifest_tracks_scanned_files (E : ingest_env) (force : bool)
    (files : list source_file) (p p' : persisted) (r : ingest_response) :
  NoDup (map sf_rel_path files) ->
  ingest_documents E force files p = (p', inl r) ->
  (forall q, is_Some (p_manifest p' !! q) <-> q ∈ map sf_rel_path files) /\
  (forall f, f ∈ files -> e_sha256 <$> p_manifest p' !! sf_rel_path f = Some (_sha256_file E f)).
Proof.
  intros Hnd Hrun. apply ingest_documents_inl in Hrun as (st & Hl & -> & _). simpl.
  destruct (ingest_loop_accounting E force files _ st Hl Hnd) as (_ & Hhash & _).
  assert (Hkeep : forall q, q ∈ map sf_rel_path files ->
            st_tracked (remove_stale E (missing_paths st) st) !! q = st_tracked st !! q)
    by (intros q Hq; exact (proj1 (remove_stale_frame E _ st q (scanned_not_missing E force files p st q Hl Hq)))).
  split.
  - intros q. split.
    + intros Hs. destruct (decide (q ∈ map sf_rel_path files)) as [|Hn]; [done|].
      destruct (decide (q ∈ missing_paths st)) as [Hm|Hm].
      * by rewrite (proj1 (remove_stale_removed E _ st q Hm)) in Hs.
      * rewrite (proj1 (remove_stale_frame E _ st q Hm)) in Hs.
        exfalso. apply Hm, missing_paths_spec. split; [done|].
        rewrite (ingest_loop_discovered E force files _ st Hl q). simpl. set_solver.
    + intros Hq. rewrite Hkeep by done. apply list_elem_of_fmap in Hq as (f & -> & Hf).
      specialize (Hhash f Hf). destruct (st_tracked st !! sf_rel_path f); [by eexists|done].
  - intros f Hf. rewrite Hkeep by (by apply list_elem_of_fmap_2). by apply Hhash.
Qed.

(** X3: [total_chunks_added] is the number of chunks stored for the files
    reported as indexed. *)
Theorem total_counts_stored_chunks (E : ingest_env) (force : bool)
    (files : list source_file) (p p' : persisted) (r : ingest_response) :
  NoDup (map sf_rel_path files) ->
  ingest_documents E force files p = (p', inl r) ->
  total_chunks_added r =
    sum_list_with (fun q => length (default [] (p_chunk_store p' !! q))) (indexed_files r).
Proof.
  intros Hnd Hrun. apply ingest_documents_inl in Hrun as (st & Hl & -> & ->). simpl.
  destruct (remove_stale_counters E (missing_paths st) st) as (-> & -> & _).
  destruct (ingest_loop_accounting E force files _ st Hl Hnd) as (_ & _ & new & Hnew & Hsub & Htot & _).
  rewrite Htot, Hnew. simpl. apply sum_list_with_ext_in. intros q Hq.
  rewrite (proj2 (remove_stale_frame E _ st q (scanned_not_missing E force files p st q Hl (Hsub q Hq)))).
  done.
Qed.

(** X4: a forced run indexes every scanned file whose text could be
    extracted and is not blank. *)
Theorem forced_run_indexes_text_files (E : ingest_env) (files : list source_file)
    (p p' : persisted) (r : ingest_response) :
  NoDup (map sf_rel_path files) ->
  ingest_documents E true files p = (p', inl r) ->
  forall f t, f ∈ files -> env_extract E f = Some t -> is_blank t = false ->
    sf_rel_path f ∈ indexed_files r.
Proof.
  intros Hnd Hrun f t Hf Hx Hb. apply ingest_documents_inl in Hrun as (st & Hl & _ & ->). simpl.
  destruct (remove_stale_counters E (missing_paths st) st) as (-> & _ & _).
  destruct (ingest_loop_accounting E true files _ st Hl Hnd) as (_ & _ & new & Hnew & _ & _ & Hforce).
  rewrite Hnew. simpl. exact (Hforce eq_refl f t Hf Hx Hb).
Qed.

(** X5: [ingest_documents] never lets an authorization error escape (it
    falls back instead); when another error escapes, the manifest and the
    chunk store keep their contents from before the run. *)
Theorem ingest_raises_only_non_auth (E : ingest_env) (force : bool)
    (files : list source_file) (p p' : persisted) (e : exc) :
  ingest_documents E force files p = (p', inr e) ->
  _is_embedding_auth_error e = false /\
  p_manifest p' = p_manifest p /\ p_chunk_store p' = p_chunk_store p.
Proof.
  unfold ingest_documents.
  destruct (ingest_loop E force files (initial_state p)) as [st [e'|]] eqn:Hl; [|discriminate].
  intros [= <- <-]. split; [exact (ingest_loop_raises E force files _ st e' Hl)|done].
Qed.

(** X6: through [_run_ingest], an ingestion request fails with an HTTP
    error only as a 502 for an unreachable API: the 401/403 branches cannot
    be reached, because [ingest_documents] never raises an authorization
    error; any other error escapes unchanged. *)
Theorem run_ingest_http_errors (E : ingest_env) (force : bool)
    (files : list source_file) (p : persisted) :
  (forall status detail, (_run_ingest E force files p).2 = HTTPException status detail ->
     status = 502%Z /\ (ingest_documents E force files p).2 = inr APIConnectionError) /\
  (forall e, (_run_ingest E force files p).2 = Raised e ->
     (ingest_documents E force files p).2 = inr e /\ _is_embedding_auth_error e = false /\
     e <> APIConnectionError).
Proof.
  unfold _run_ingest. destruct (ingest_documents E force files p) as [p' [r|e]] eqn:Hrun;
    simpl; [split; intros; discriminate|].
  destruct (ingest_raises_only_non_auth E force files p p' e Hrun) as [Hauth _].
  destruct e as [| c | | m | oc]; simpl in Hauth |- *.
  - discriminate.
  - rewrite Hauth. split; [intros; discriminate|]. intros e [= <-]. done.
  - split; [intros s d [= <- _]; done|intros; discriminate].
  - split; [intros; discriminate|]. intros e [= <-]. done.
  - split; [intros; discriminate|]. intros e [= <-]. done.
Qed.

Lemma ingest_reports_each_file_once_witness :
  exists r, (ingest_documents (test_env add_unauthorized) false [file_a_v2; file_b] indexed_a_v1).2 = inl r /\
    indexed_files r ++ skipped_files r ≡ₚ map sf_rel_path [file_a_v2; file_b].
Proof.
  eexists. split; [vm_compute; reflexivity|].
  eapply (ingest_reports_each_file_once (test_env add_unauthorized) false [file_a_v2; file_b] indexed_a_v1
           (ingest_documents (test_env add_unauthorized) false [file_a_v2; file_b] indexed_a_v1).1).
  - apply (bool_decide_unpack _). vm_compute. reflexivity.
  - vm_compute. reflexivity.
Defined.

Lemma manifest_tracks_scanned_files_witness :
  let run := ingest_documents (test_env no_fault) false [file_b] indexed_a_v1 in
  exists r, run.2 = inl r /\
  (forall q, is_Some (p_manifest run.1 !! q) <-> q ∈ map sf_rel_path [file_b]) /\
  (forall f, f ∈ [file_b] ->
     e_sha256 <$> p_manifest run.1 !! sf_rel_path f = Some (_sha256_file (test_env no_fault) f)).
Proof.
  intros run. eexists. split; [vm_compute; reflexivity|].
  eapply (manifest_tracks_scanned_files (test_env no_fault) false [file_b] indexed_a_v1 run.1).
  - apply (bool_decide_unpack _). vm_compute. reflexivity.
  - vm_compute. reflexivity.
Defined.

Lemma total_counts_stored_chunks_witness :
  let run := ingest_documents (test_env no_fault) false [file_a_v2; file_b] indexed_a_v1 in
  exists r, run.2 = inl r /\
  total_chunks_added r =
    sum_list_with (fun q => length (default [] (p_chunk_store run.1 !! q))) (indexed_files r).
Proof.
  intros run. eexists. split; [vm_compute; reflexivity|].
  eapply (total_counts_stored_chunks (test_env no_fault) false [file_a_v2; file_b] indexed_a_v1 run.1).
  - apply (bool_decide_unpack _). vm_compute. reflexivity.
  - vm_compute. reflexivity.
Defined.

Lemma forced_run_indexes_text_files_witness :
  let run := ingest_documents (test_env no_fault) true [file_a_v1] indexed_a_v1 in
  exists r, run.2 = inl r /\ sf_rel_path file_a_v1 ∈ indexed_files r.
Proof.
  intros run. eexists. split; [vm_compute; reflexivity|].
  eapply (forced_run_indexes_text_files (test_env no_fault) [file_a_v1] indexed_a_v1 run.1 _
           _ _ file_a_v1 "hi").
  Unshelve.
  all: first [ apply elem_of_cons; by left
             | apply (bool_decide_unpack _); vm_compute; reflexivity
             | vm_compute; reflexivity ].
Defined.

Lemma ingest_raises_only_non_auth_witness :
  _is_embedding_auth_error (APIStatusError 500) = false /\
  p_manifest (ingest_documents (test_env add_server_error) false [file_a_v2] indexed_a_v1).1
    = p_manifest indexed_a_v1 /\
  p_chunk_store (ingest_documents (test_env add_server_error) false [file_a_v2] indexed_a_v1).1
    = p_chunk_store indexed_a_v1.
Proof.
  apply (ingest_raises_only_non_auth (test_env add_server_error) false [file_a_v2] indexed_a_v1).
  vm_compute. reflexivity.
Defined.
Lemma py_split_no_slash s : Forall (fun c => no_slash c = true) (py_split "/" s).
Proof.
  induction s as [|a s IH]; simpl; [by constructor|].
  destruct (Ascii.eqb a "/") eqn:Ha; [by constructor|].
  destruct (py_split "/" s) as [|p ps] eqn:Hs; inversion IH; subst;
    constructor; simpl; rewrite ?Ha; simpl; auto.
Qed.

Lemma last_elem_of {A} (l : list A) x : last l = Some x -> x ∈ l.
Proof.
  induction l as [|a [|b l] IH]; simpl; [done| |].
  - intros [= ->]. by left.
  - intros H. right. by apply IH.
Qed.

Lemma path_name_component s :
  path_name s = "" \/ (path_name s <> "" /\ path_name s <> "." /\ no_slash (path_name s) = true).
Proof.
  unfold path_name.
  destruct (last _) as [n|] eqn:Hl; simpl; [|by left].
  right. apply last_elem_of, list_elem_of_filter in Hl as [Hf Hin].
  assert (n <> "" /\ n <> ".") as [H1 H2].
  { revert Hf. repeat case_bool_decide; simpl; tauto. }
  split; [done|split; [done|]].
  pose proof (py_split_no_slash s) as HF. rewrite Forall_forall in HF.
  apply HF, Hin.
Qed.

Lemma upload_loop_spec wf files u r u' r' :
  upload_loop wf files u r = (u', r', None) ->
  (forall x, x ∈ u' -> x ∈ u \/ safe_upload_path x) /\
  length u' + length r' = length u + length r + length files.
Proof.
  revert u r. induction files as [|f files IH]; intros u r; simpl.
  - intros [= -> ->]. split; [by left|lia].
  - pose proof (path_name_component (default "" f)) as Hc.
    remember (path_name (default "" f)) as n eqn:Hn0. clear Hn0.
    destruct (bool_decide (n = "") || _) eqn:Hrej.
    + intros H. destruct (IH _ _ H) as [Hu Hlen]. split; [done|].
      rewrite Hlen, length_app. simpl. lia.
    + destruct (wf n) as [e|]; [intros [=]|].
      intros H. destruct (IH _ _ H) as [Hu Hlen]. split.
      * intros x Hx. destruct (Hu x Hx) as [Hx'|]; [|by right].
        apply elem_of_app in Hx' as [|Hx']; [by left|right].
        apply list_elem_of_singleton in Hx'. subst x.
        apply orb_false_iff in Hrej as [Hn Hext].
        apply bool_decide_eq_false in Hn. apply negb_false_iff in Hext.
        exists n. destruct Hc as [|(H1 & H2 & H3)]; [congruence|].
        repeat split; auto.
        intros ->. vm_compute in Hext. discriminate.
      * rewrite Hlen, length_app. simpl. lia.
Qed.
Lemma upload_loop_rejects_all wf files u r :
  Forall (fun f => path_name (default "" f) = "" \/
                   supported_upload_extension (py_lower (path_suffix (path_name (default "" f)))) = false) files ->
  exists r', upload_loop wf files u r = (u, r', None).
Proof.
  revert r. induction files as [|f files IH]; intros r HF; simpl; [by eexists|].
  inversion HF as [|? ? Hf HF']; subst.
  replace (bool_decide (path_name (default "" f) = "") || _) with true; [by apply IH|].
  destruct Hf as [-> | ->]; [done|]. by rewrite orb_true_r.
Qed.

(** Every path [ingest_upload] reports as uploaded is ["ingest/"] followed
    by a single file name: non-empty, without ['/'], neither ["."] nor
    [".."], and with a [.txt] or [.pdf] extension in any letter case, so an
    upload is never written outside the ingest directory. *)
Theorem upload_paths_confined wf files run r :
  ingest_upload wf files run = HttpOk r -> Forall safe_upload_path (uploaded_files r).
Proof.
  unfold ingest_upload.
  destruct (upload_loop wf files [] []) as [[u rj] [e|]] eqn:Hl; [intros [=]|].
  destruct u as [|x u]; [intros [=]|]. destruct run; intros [=]; subst; simpl.
  apply upload_loop_spec in Hl as [Hu _].
  apply Forall_forall. intros y Hy.
  destruct (Hu y Hy) as [Hy'|]; [by apply not_elem_of_nil in Hy'|done].
Qed.

Lemma upload_paths_confined_witness :
  ingest_upload no_write_fault [Some "../../etc/notes.TXT"; Some "a.exe"; None] (HttpOk (Build_ingest_response [] [] 0))
    = HttpOk {| uploaded_files := ["ingest/notes.TXT"]; rejected_files := ["a.exe"; "<unnamed>"];
                ingest := Build_ingest_response [] [] 0 |} /\
  Forall safe_upload_path ["ingest/notes.TXT"].
Proof.
  split; [vm_compute; reflexivity|].
  change ["ingest/notes.TXT"] with (uploaded_files {| uploaded_files := ["ingest/notes.TXT"];
    rejected_files := ["a.exe"; "<unnamed>"]; ingest := Build_ingest_response [] [] 0 |}).
  apply (upload_paths_confined no_write_fault [Some "../../etc/notes.TXT"; Some "a.exe"; None]
           (HttpOk (Build_ingest_response [] [] 0))).
  vm_compute; reflexivity.
Defined.

(** When [ingest_upload] succeeds, every uploaded part is reported exactly
    once, either as uploaded or as rejected. *)
Theorem upload_reports_every_part wf files run r :
  ingest_upload wf files run = HttpOk r ->
  length (uploaded_files r) + length (rejected_files r) = length files.
Proof.
  unfold ingest_upload.
  destruct (upload_loop wf files [] []) as [[u rj] [e|]] eqn:Hl; [intros [=]|].
  destruct u as [|x u]; [intros [=]|]. destruct run; intros [=]; subst; simpl.
  apply upload_loop_spec in Hl as [_ Hlen]. simpl in *. lia.
Qed.

(** If no part has a usable name with a [.txt] or [.pdf] extension, the
    upload fails with status 400, nothing is written and the ingestion's
    outcome plays no part. *)
Theorem upload_without_valid_files_400 wf files run :
  Forall (fun f => path_name (default "" f) = "" \/
                   supported_upload_extension (py_lower (path_suffix (path_name (default "" f)))) = false) files ->
  ingest_upload wf files run =
    HTTPException 400 "No valid files uploaded. Supported extensions: .txt, .pdf.".
Proof.
  intros HF. unfold ingest_upload.
  destruct (upload_loop_rejects_all wf files [] [] HF) as [r' ->]. reflexivity.
Qed.

Lemma upload_without_valid_files_400_witness :
  ingest_upload (fun _ => Some (OtherError None)) [Some "notes.md"; Some "dir/.."; None; Some "x."]
    (HttpOk (Build_ingest_response [] [] 0)) =
    HTTPException 400 "No valid files uploaded. Supported extensions: .txt, .pdf.".
Proof.
  apply upload_without_valid_files_400.
  repeat constructor; vm_compute; first [left; reflexivity | right; reflexivity].
Defined.

Lemma upload_reports_every_part_witness :
  length ["ingest/a.pdf"] + length ["b.docx"; "<unnamed>"] = length [Some "a.pdf"; Some "b.docx"; None].
Proof.
  change ["ingest/a.pdf"] with (uploaded_files {| uploaded_files := ["ingest/a.pdf"];
    rejected_files := ["b.docx"; "<unnamed>"]; ingest := Build_ingest_response [] [] 0 |}).
  change ["b.docx"; "<unnamed>"] with (rejected_files {| uploaded_files := ["ingest/a.pdf"];
    rejected_files := ["b.docx"; "<unnamed>"]; ingest := Build_ingest_response [] [] 0 |}).
  apply (upload_reports_every_part no_write_fault _ (HttpOk (Build_ingest_response [] [] 0))).
  vm_compute; reflexivity.
Defined.
Lemma length_pairs_hist ps : length (pairs_hist ps) = 2 * length ps.
Proof. induction ps as [|[u a] ps IH]; simpl; [done|]. unfold pairs_hist in IH. lia. Qed.

Lemma drop_pairs_hist j ps : drop (2 * j) (pairs_hist ps) = pairs_hist (drop j ps).
Proof.
  revert ps. induction j as [|j IH]; intros ps; [done|].
  destruct ps as [|[u a] ps]; [done|].
  replace (2 * S j) with (S (S (2 * j))) by lia. simpl. apply IH.
Qed.

Lemma pairs_hist_app ps qs : pairs_hist (ps ++ qs) = pairs_hist ps ++ pairs_hist qs.
Proof. unfold pairs_hist. by rewrite fmap_app, concat_app. Qed.

Lemma py_tail_pairs_hist k ps :
  0 < k -> py_tail (2 * k) (pairs_hist ps) = pairs_hist (py_tail k ps).
Proof.
  intros Hk. destruct k as [|k']; [lia|].
  replace (2 * S k') with (S (S (2 * k'))) by lia. cbn [py_tail].
  rewrite length_pairs_hist.
  replace (2 * length ps - S (S (2 * k'))) with (2 * (length ps - S k')) by lia.
  apply drop_pairs_hist.
Qed.

Lemma session_log_turns sid ops : session_log sid ops = pairs_hist (session_turns sid ops).
Proof.
  induction ops as [|[[s u] a] ops IH]; [done|].
  unfold session_log, session_turns in *. cbn [map concat].
  rewrite IH. case_bool_decide; [done|done].
Qed.

(** With an even message limit [2 * k], a session's history is always made
    of whole turns: the user message and answer of its last [k] turns,
    oldest first, so it never starts with an answer cut from its question.
    (The default store keeps [10] messages, i.e. five turns.) *)
Theorem session_history_whole_turns (s : SessionStore) k ops sid ps :
  0 < k -> ss_max_messages s = 2 * k ->
  get_messages s sid = pairs_hist ps -> length ps <= k ->
  get_messages (apply_turns s ops) sid = pairs_hist (py_tail k (ps ++ session_turns sid ops)).
Proof.
  intros Hk Hm Hs Hlen.
  rewrite apply_turns_get by (rewrite ?Hs, ?length_pairs_hist; lia).
  rewrite Hs, session_log_turns, <- pairs_hist_app, Hm.
  by apply py_tail_pairs_hist.
Qed.

Lemma session_history_whole_turns_witness :
  get_messages (apply_turns new_session_store
    [("s1", "u1", "a1"); ("s2", "x", "y"); ("s1", "u2", "a2"); ("s1", "u3", "a3");
     ("s1", "u4", "a4"); ("s1", "u5", "a5"); ("s1", "u6", "a6")]) "s1" =
  pairs_hist (py_tail 5 ([] ++ session_turns "s1"
    [("s1", "u1", "a1"); ("s2", "x", "y"); ("s1", "u2", "a2"); ("s1", "u3", "a3");
     ("s1", "u4", "a4"); ("s1", "u5", "a5"); ("s1", "u6", "a6")])).
Proof.
  apply session_history_whole_turns; [lia | reflexivity | reflexivity | simpl; lia].
Defined.
Lemma forward_tokens_only toks a :
  forward_events (map EvToken toks) a = (map token_frame toks, a).
Proof.
  pose proof (forward_tokens toks [] a) as H. rewrite app_nil_r in H. rewrite H.
  simpl. by rewrite app_nil_r.
Qed.

(** When the answer stream raises, [/chat] has sent the tokens streamed so
    far and no sources; it then either sends the error's message and
    [done] or lets the exception escape.  Either way the session history is
    left as it was: a failed answer is never stored, even in part. *)
Theorem failed_answer_not_stored astream retrieved chat_model default_model
    (store : SessionStore) session_id msg e :
  (stream_chat_answer astream retrieved chat_model default_model).2 = Some e ->
  exists toks,
    (stream_chat_answer astream retrieved chat_model default_model).1 = map EvToken toks /\
    chat_event_stream store session_id msg (stream_chat_answer astream retrieved chat_model default_model) =
    match error_frame e with
    | Some fr => (store, map token_frame toks ++ [fr; SSE "done" DEmpty], None)
    | None => (store, map token_frame toks, Some e)
    end.
Proof.
  unfold stream_chat_answer. destruct retrieved as [results|e'].
  - set (cands := model_candidates chat_model default_model).
    destruct (candidate_loop_shape astream cands (length cands) 0 false "") as (toks & H1 & H2).
    destruct (candidate_loop astream (length cands) 0 cands false "") as [[evs err] ft].
    simpl in H1, H2. subst evs.
    destruct err as [e'|]; simpl; [intros [= ->]|intros [=]].
    exists toks. split; [done|]. unfold chat_event_stream. rewrite forward_tokens_only.
    destruct (error_frame e); [|done]. simpl. by rewrite <- app_assoc.
  - simpl. intros [= ->]. exists []. split; [done|]. unfold chat_event_stream. simpl.
    by destruct (error_frame e).
Qed.

Lemma failed_answer_not_stored_witness :
  (stream_chat_answer astream_auth_failure (inl []) None "gpt-4o-mini").2 =
    Some (AuthenticationError) /\
  exists toks,
    (stream_chat_answer astream_auth_failure (inl []) None "gpt-4o-mini").1 = map EvToken toks /\
    chat_event_stream new_session_store "s1" "hola"
      (stream_chat_answer astream_auth_failure (inl []) None "gpt-4o-mini") =
    match error_frame (AuthenticationError) with
    | Some fr => (new_session_store, map token_frame toks ++ [fr; SSE "done" DEmpty], None)
    | None => (new_session_store, map token_frame toks, Some (AuthenticationError))
    end.
Proof.
  split; [vm_compute; reflexivity|].
  apply failed_answer_not_stored. vm_compute; reflexivity.
Defined.
Lemma stream_tokens_silent chunks emitted full :
  Forall (fun c => token_of c = "") chunks -> stream_tokens chunks emitted full = ([], emitted, full).
Proof.
  induction 1 as [|c cs Hc _ IH]; [done|]. simpl. by rewrite bool_decide_eq_true_2.
Qed.

Lemma candidate_loop_last astream ncand index m :
  ncand - 1 <= index ->
  candidate_loop astream ncand index [m] false "" = candidate_loop astream 1 0 [m] false "".
Proof.
  intros Hi. simpl. destruct (astream m) as [chunks err].
  destruct (stream_tokens chunks false "") as [[evs em] ft].
  destruct err as [e|].
  - replace (Nat.ltb index (ncand - 1)) with false by (symmetry; apply Nat.ltb_ge; lia). done.
  - done.
Qed.

Lemma candidate_loop_silent_head astream ncand index m rest :
  Forall (fun c => token_of c = "") (astream m).1 ->
  candidate_loop astream ncand index (m :: rest) false "" =
  match (astream m).2 with
  | Some e => if Nat.ltb index (ncand - 1) then candidate_loop astream ncand (S index) rest false ""
              else ([], Some e, "")
  | None => candidate_loop astream ncand (S index) rest false ""
  end.
Proof.
  intros Hs. cbn [candidate_loop]. destruct (astream m) as [chunks err]. simpl in Hs.
  rewrite stream_tokens_silent by done.
  destruct err as [e|]; [destruct (Nat.ltb index (ncand - 1))|];
    destruct (candidate_loop astream ncand (S index) rest false "") as [[evs2 r] f2]; done.
Qed.

(** A requested model whose stream yields no text, whether it then ends
    or raises, leaves no trace: the answer is exactly the one the
    configured default model gives when no model is requested. *)
Theorem silent_requested_model_is_invisible astream retrieved m default_model :
  Forall (fun c => token_of c = "") (astream m).1 ->
  stream_chat_answer astream retrieved (Some m) default_model =
  stream_chat_answer astream retrieved None default_model.
Proof.
  intros Hs. unfold stream_chat_answer. destruct retrieved as [results|e]; [|done].
  unfold model_candidates. rewrite (bool_decide_eq_true_2 (default_model = default_model)) by done.
  destruct (bool_decide (m = "")); [by rewrite bool_decide_eq_true_2|].
  case_bool_decide as Hd; [by subst m|].
  cbn [length].
  assert (candidate_loop astream 2 0 [m; default_model] false "" =
          candidate_loop astream 1 0 [default_model] false "") as ->; [|done].
  rewrite candidate_loop_silent_head by done.
  destruct (astream m).2; [|by apply candidate_loop_last].
  replace (Nat.ltb 0 (2 - 1)) with true by done. by apply candidate_loop_last.
Qed.

Lemma silent_requested_model_is_invisible_witness :
  stream_chat_answer (fun m => if bool_decide (m = "gpt-x") then ([ContentStr ""], Some (OtherError None))
                               else astream_hola m) (inl []) (Some "gpt-x") "gpt-4o-mini" =
  stream_chat_answer (fun m => if bool_decide (m = "gpt-x") then ([ContentStr ""], Some (OtherError None))
                               else astream_hola m) (inl []) None "gpt-4o-mini".
Proof. apply silent_requested_model_is_invisible. vm_compute. repeat constructor. Defined.

Lemma stream_tokens_emitted_mono chunks full :
  (stream_tokens chunks true full).1.2 = true.
Proof.
  revert full. induction chunks as [|c cs IH]; intros full; simpl; [done|].
  case_bool_decide; [apply IH|].
  specialize (IH (full +:+ token_of c)).
  destruct (stream_tokens cs true (full +:+ token_of c)) as [[evs em] ft]. done.
Qed.

Lemma stream_tokens_emitted chunks emitted full :
  Exists (fun c => token_of c <> "") chunks -> (stream_tokens chunks emitted full).1.2 = true.
Proof.
  intros Hx. revert emitted full. induction Hx as [c cs Hc|c cs _ IH]; intros emitted full; simpl.
  - rewrite bool_decide_eq_false_2 by done.
    pose proof (stream_tokens_emitted_mono cs (full +:+ token_of c)) as Hmono.
    destruct (stream_tokens cs true (full +:+ token_of c)) as [[evs em] ft]. done.
  - case_bool_decide; [apply IH|].
    pose proof (stream_tokens_emitted_mono cs (full +:+ token_of c)) as Hmono.
    destruct (stream_tokens cs true (full +:+ token_of c)) as [[evs em] ft]. done.
Qed.

(** Once a requested model (a non-empty [chat_model]) has streamed some text and ended without an
    exception, the configured default model is never called: the answer
    depends only on the requested model's stream. *)
Theorem answered_request_skips_default astream astream' retrieved m default_model :
  m <> "" -> (astream m).2 = None -> Exists (fun c => token_of c <> "") (astream m).1 ->
  astream' m = astream m ->
  stream_chat_answer astream retrieved (Some m) default_model =
  stream_chat_answer astream' retrieved (Some m) default_model.
Proof.
  intros Hne Hn Hx Ha'. unfold stream_chat_answer. destruct retrieved as [results|e]; [|done].
  assert (forall ncand rest,
            candidate_loop astream ncand 0 (m :: rest) false "" =
            candidate_loop astream' ncand 0 (m :: rest) false "") as Hl.
  { intros ncand rest. cbn [candidate_loop]. rewrite Ha'.
    destruct (astream m) as [chunks err]. simpl in Hn, Hx. subst err.
    pose proof (stream_tokens_emitted chunks false "" Hx) as Hem.
    destruct (stream_tokens chunks false "") as [[evs em] ft]. simpl in Hem. by subst em. }
  unfold model_candidates. rewrite (bool_decide_eq_false_2 (m = "")) by done.
  case_bool_decide; rewrite Hl; done.
Qed.

Lemma answered_request_skips_default_witness :
  stream_chat_answer astream_partial_failure (inl []) (Some "gpt-4o") "gpt-4o-mini" =
  stream_chat_answer (fun m => if bool_decide (m = "gpt-4o") then astream_partial_failure m
                               else ([], Some APIConnectionError)) (inl []) (Some "gpt-4o") "gpt-4o-mini".
Proof.
  apply answered_request_skips_default; [done | reflexivity | vm_compute; by repeat constructor | reflexivity].
Defined.
(* ------------------------------------------------------------------ *)
(** ** CORS origins *)

Lemma py_lstrip_suffix s : exists pre, s = pre ++ py_lstrip s.
Proof.
  induction s as [|c s IH]; simpl; [by exists []|].
  destruct (py_isspace c); [|by exists []].
  destruct IH as [pre Hpre]. exists (c :: pre). simpl. by f_equal.
Qed.

Lemma py_lstrip_head s :
  py_lstrip s = [] \/ exists c r, py_lstrip s = c :: r /\ py_isspace c = false.
Proof.
  induction s as [|c s IH]; simpl; [by left|].
  destruct (py_isspace c) eqn:Hc; [done|right; eauto].
Qed.

Lemma py_lstrip_fix c r : py_isspace c = false -> py_lstrip (c :: r) = c :: r.
Proof. simpl. by intros ->. Qed.

Lemma py_lstrip_pad pad s : Forall (fun c => py_isspace c = true) pad -> py_lstrip (pad ++ s) = py_lstrip s.
Proof. induction 1 as [|c pad Hc _ IH]; [done|]. simpl. by rewrite Hc. Qed.

Lemma py_strip_idem s : py_strip (py_strip s) = py_strip s.
Proof.
  unfold py_strip, py_rstrip.
  set (x := py_lstrip s). set (y := py_lstrip (rev x)).
  destruct (py_lstrip_suffix (rev x)) as [pre Hpre]. fold y in Hpre.
  assert (Hx : x = rev y ++ rev pre) by (rewrite <- rev_app_distr, <- Hpre; by rewrite rev_involutive).
  assert (py_lstrip (rev y) = rev y) as ->.
  { destruct (rev y) as [|c r] eqn:Hy; [done|].
    destruct (py_lstrip_head s) as [Hs|(c' & r' & Hs & Hc')]; fold x in Hs.
    - rewrite Hs in Hx. simpl in Hx. by destruct r.
    - rewrite Hs in Hx. simpl in Hx. injection Hx as <- _. by apply py_lstrip_fix. }
  rewrite rev_involutive.
  destruct (py_lstrip_head (rev x)) as [Hs|(c' & r' & Hs & Hc')]; fold y in Hs; rewrite Hs; [done|].
  by rewrite py_lstrip_fix.
Qed.

Lemma elem_of_py_strip c s : c ∈ py_strip s -> c ∈ s.
Proof.
  unfold py_strip, py_rstrip. rewrite list_elem_of_In, <- in_rev, <- list_elem_of_In. intros H.
  destruct (py_lstrip_suffix (rev (py_lstrip s))) as [pre Hpre].
  assert (c ∈ rev (py_lstrip s)) as H2 by (rewrite Hpre; set_solver).
  rewrite list_elem_of_In, <- in_rev, <- list_elem_of_In in H2.
  destruct (py_lstrip_suffix s) as [pre' Hpre']. rewrite Hpre'. set_solver.
Qed.

Lemma py_split_cp_no_sep sep s : Forall (fun p => sep ∉ p) (py_split_cp sep s).
Proof.
  induction s as [|c s IH]; simpl; [repeat constructor; set_solver|].
  destruct (Z.eqb c sep) eqn:Hc; [constructor; [set_solver|done]|].
  apply Z.eqb_neq in Hc.
  destruct (py_split_cp sep s) as [|p ps].
  - repeat constructor. set_solver.
  - apply Forall_cons in IH as [Hp Hps]. constructor; [|done].
    apply not_elem_of_cons. split; [congruence|done].
Qed.

Lemma py_split_cp_nonempty sep s : py_split_cp sep s <> [].
Proof.
  destruct s as [|c s]; simpl; [done|].
  destruct (Z.eqb c sep); [done|]. by destruct (py_split_cp sep s).
Qed.

Lemma py_split_cp_prefix sep a s :
  sep ∉ a ->
  py_split_cp sep (a ++ s) = match py_split_cp sep s with p :: ps => (a ++ p) :: ps | [] => [a] end.
Proof.
  induction a as [|c a IH]; intros Ha; simpl.
  - pose proof (py_split_cp_nonempty sep s). by destruct (py_split_cp sep s).
  - apply not_elem_of_cons in Ha as [Hc Ha].
    rewrite (proj2 (Z.eqb_neq c sep)) by congruence. rewrite IH by done.
    by destruct (py_split_cp sep s).
Qed.

Lemma py_split_cp_plain sep s : sep ∉ s -> py_split_cp sep s = [s].
Proof.
  induction s as [|c s IH]; intros Hs; [done|]. simpl.
  apply not_elem_of_cons in Hs as [Hc Hs].
  rewrite (proj2 (Z.eqb_neq c sep)) by congruence. by rewrite IH.
Qed.

Lemma py_split_cp_app sep a b : sep ∉ a -> py_split_cp sep (a ++ sep :: b) = a :: py_split_cp sep b.
Proof.
  induction a as [|c a IH]; intros Ha; simpl; [by rewrite Z.eqb_refl|].
  apply not_elem_of_cons in Ha as [Hc Ha].
  rewrite (proj2 (Z.eqb_neq c sep)) by congruence. by rewrite IH.
Qed.

(** [allowed_origins_list] never yields an empty origin, an origin holding
    a comma, or one with whitespace around it: each entry is non-empty,
    comma-free and equal to its own [strip()]. *)
Theorem allowed_origins_clean allowed_origins :
  Forall (fun o => o <> [] /\ (44%Z ∉ o) /\ py_strip o = o) (allowed_origins_list allowed_origins).
Proof.
  unfold allowed_origins_list. apply Forall_fmap, Forall_forall.
  intros p Hin. apply list_elem_of_filter in Hin as [Hne Hin].
  pose proof (py_split_cp_no_sep 44 allowed_origins) as Hp.
  rewrite Forall_forall in Hp. specialize (Hp p Hin). simpl.
  split; [|split].
  - intros Hs. rewrite Hs in Hne. by rewrite bool_decide_eq_true_2 in Hne.
  - intros Hc. by apply Hp, elem_of_py_strip.
  - apply py_strip_idem.
Qed.

Lemma py_split_cp_join_commas p ps :
  Forall (fun p => 44%Z ∉ p) (p :: ps) ->
  py_split_cp 44 (join_commas (p :: ps)) = p :: ps.
Proof.
  revert p. induction ps as [|p2 ps IH]; intros p HF.
  - simpl. apply Forall_cons in HF as [Hp _]. by apply py_split_cp_plain.
  - apply Forall_cons in HF as [Hp HF].
    change (join_commas (p :: p2 :: ps)) with (p ++ 44%Z :: join_commas (p2 :: ps)).
    rewrite py_split_cp_app, IH by done. done.
Qed.

Lemma filter_all_keep (l : list pystr) :
  Forall (fun p => py_strip p <> []) l ->
  filter (fun origin => negb (bool_decide (py_strip origin = []))) l = l.
Proof.
  induction 1 as [|p l Hp _ IH]; [done|]. rewrite filter_cons, IH.
  rewrite decide_True; [done|]. by rewrite bool_decide_eq_false_2.
Qed.

Lemma py_lstrip_length s : length (py_lstrip s) <= length s.
Proof. destruct (py_lstrip_suffix s) as [pre Hpre]. rewrite Hpre at 2. rewrite length_app. lia. Qed.

Lemma py_lstrip_full s : length s <= length (py_lstrip s) -> py_lstrip s = s.
Proof.
  destruct (py_lstrip_suffix s) as [pre Hpre]. intros Hl.
  set (t := py_lstrip s) in *. rewrite Hpre in Hl |- *. rewrite length_app in Hl.
  destruct pre; [done|simpl in Hl; lia].
Qed.

(** A stripped string is its own [lstrip], and so is its reverse. *)
Lemma py_strip_fixed o : py_strip o = o -> py_lstrip o = o /\ py_lstrip (rev o) = rev o.
Proof.
  unfold py_strip, py_rstrip. intros Ho.
  assert (Hl : length o = length (py_lstrip (rev (py_lstrip o)))).
  { rewrite <- Ho at 1. by rewrite length_rev. }
  pose proof (py_lstrip_length (rev (py_lstrip o))) as H1. rewrite length_rev in H1.
  pose proof (py_lstrip_length o) as H2.
  assert (Hlo : py_lstrip o = o) by (apply py_lstrip_full; lia).
  split; [done|]. rewrite Hlo in Ho.
  rewrite <- Ho at 2. by rewrite rev_involutive.
Qed.

Lemma py_lstrip_app_fix s t : py_lstrip s = s -> s <> [] -> py_lstrip (s ++ t) = s ++ t.
Proof.
  destruct s as [|c r]; [done|]. intros Hs _. simpl in *.
  destruct (py_isspace c); [|done].
  pose proof (py_lstrip_length r) as Hl. rewrite Hs in Hl. simpl in Hl. lia.
Qed.

(** Whitespace around a stripped, non-empty origin is stripped away. *)
Lemma py_strip_padded pre o post :
  Forall (fun c => py_isspace c = true) pre -> Forall (fun c => py_isspace c = true) post ->
  o <> [] -> py_strip o = o -> py_strip (pre ++ o ++ post) = o.
Proof.
  intros Hpre Hpost Hne Ho. destruct (py_strip_fixed o Ho) as [Hl Hr].
  unfold py_strip, py_rstrip. rewrite py_lstrip_pad by done.
  rewrite py_lstrip_app_fix by done. rewrite rev_app_distr, py_lstrip_pad.
  - by rewrite Hr, rev_involutive.
  - rewrite Forall_forall in Hpost |- *. intros c Hc. apply Hpost.
    rewrite list_elem_of_In, in_rev, <- list_elem_of_In. done.
Qed.

Lemma space_no_comma (w : pystr) : Forall (fun c => py_isspace c = true) w -> 44%Z ∉ w.
Proof. intros Hw Hin. rewrite Forall_forall in Hw. by specialize (Hw _ Hin). Qed.

(** Origins that are non-empty, comma-free and without surrounding
    whitespace come back unchanged, in order, from a comma-separated list
    of them, whatever whitespace surrounds each one (["a,b, c"],
    [" a ,\tb"], ...). *)
Theorem allowed_origins_roundtrip (ws : list (pystr * pystr * pystr)) :
  Forall (fun w => w.1.2 <> [] /\ (44%Z ∉ w.1.2) /\ py_strip w.1.2 = w.1.2 /\
                   Forall (fun c => py_isspace c = true) w.1.1 /\
                   Forall (fun c => py_isspace c = true) w.2) ws ->
  allowed_origins_list (join_commas (map padded ws)) = map (fun w => w.1.2) ws.
Proof.
  intros Hws. destruct ws as [|w ws]; [done|].
  assert (Hs : forall w', w' ∈ w :: ws -> py_strip (padded w') = w'.1.2 /\ w'.1.2 <> [] /\
                                          44%Z ∉ padded w').
  { intros w' Hin. rewrite Forall_forall in Hws. destruct (Hws w' Hin) as (H1 & H2 & H3 & H4 & H5).
    split; [by apply py_strip_padded|]. split; [done|].
    unfold padded. rewrite !elem_of_app. intros [Hc|[Hc|Hc]];
      [by apply (space_no_comma _ H4) | done | by apply (space_no_comma _ H5)]. }
  unfold allowed_origins_list. cbn [map]. rewrite py_split_cp_join_commas.
  2:{ apply Forall_forall. intros p Hp. change (p ∈ padded <$> (w :: ws)) in Hp.
      apply list_elem_of_fmap in Hp as (w' & -> & Hw'). apply Hs, Hw'. }
  change (padded w :: map padded ws) with (padded <$> (w :: ws)). rewrite filter_all_keep.
  - rewrite map_map. change (w.1.2 :: map (fun w => w.1.2) ws) with (map (fun w => w.1.2) (w :: ws)).
    apply map_ext_in. intros w' Hin. apply Hs. by apply list_elem_of_In.
  - apply Forall_forall. intros p Hp.
    apply list_elem_of_fmap in Hp as (w' & -> & Hw'). destruct (Hs w' Hw') as (-> & ? & _). done.
Qed.

(** ["http://localhost:5173,http://localhost:5173, http://localhost:5173\t"]. *)
Lemma allowed_origins_roundtrip_witness :
  allowed_origins_list (join_commas (map padded
    [([], localhost_5173, []); ([], localhost_5173, []); ([32%Z], localhost_5173, [9%Z])])) =
  [localhost_5173; localhost_5173; localhost_5173].
Proof.
  apply (allowed_origins_roundtrip
    [([], localhost_5173, []); ([], localhost_5173, []); ([32%Z], localhost_5173, [9%Z])]).
  repeat constructor;
    first [discriminate | apply (bool_decide_unpack _); vm_compute; reflexivity | vm_compute; reflexivity].
Defined.
Lemma take_min_3 (ids : list string) : take (Nat.min 3 (length ids)) ids = take 3 ids.
Proof.
  destruct (decide (length ids <= 3)).
  - rewrite Nat.min_r by done. rewrite !take_ge by lia. done.
  - by rewrite Nat.min_l by lia.
Qed.

Lemma skip_unchanged_stored E (tr : gmap string entry) vs rel h ids :
  (forall sample, env_fault E (CallGet sample) = None) ->
  tr !! rel = Some {| e_sha256 := h; e_doc_ids := ids |} ->
  existsb (fun i => bool_decide (i ∈ vs)) (take 3 ids) = true ->
  skip_unchanged E false tr vs rel h = true.
Proof.
  intros Hget Htr Hvs. unfold skip_unchanged. rewrite Htr. simpl.
  rewrite bool_decide_eq_true_2 by done. simpl.
  unfold _has_persisted_vectors. destruct ids as [|i ids']; [done|].
  rewrite Hget. by rewrite take_min_3.
Qed.

Lemma embed_attempt_vs_other E vs prev ids x :
  x ∉ prev -> x ∉ ids -> (x ∈ (embed_attempt E vs prev ids).1 <-> x ∈ vs).
Proof.
  intros Hp Hi. unfold embed_attempt, vs_delete, vs_add.
  repeat case_match; simplify_eq; cbn [fst]; rewrite ?elem_of_union, ?elem_of_difference, ?elem_of_list_to_set;
    try tauto.
Qed.

(** A file's step touches no vector of another path. *)
Lemma ingest_file_vs_other E force st g q x :
  wf_manifest (st_tracked st) -> owned q x -> q <> sf_rel_path g ->
  (x ∈ st_vs (ingest_file E force st g).1 <-> x ∈ st_vs st).
Proof.
  intros Hwf Hx Hq. unfold ingest_file, extract_and_process, process_text.
  set (rel := sf_rel_path g) in *.
  destruct (skip_unchanged _ _ _ _ _ _); [done|]. cbn [st_tracked st_vs discover].
  destruct (env_extract E g) as [text|]; [|done].
  destruct (is_blank text); [done|].
  destruct (negb _ && _); [|done]. cbn [st_vs store_chunks discover].
  destruct (embed_attempt E (st_vs st) (default [] (e_doc_ids <$> st_tracked st !! rel))
              (make_doc_ids rel (_sha256_file E g) (env_split E text))) as [vs' err] eqn:He.
  assert (Hvs : x ∈ vs' <-> x ∈ st_vs st).
  { change vs' with (vs', err).1. rewrite <- He. apply embed_attempt_vs_other.
    - intros Hp. apply Hq, (owned_unique q rel x Hx). by apply (wf_manifest_prev (st_tracked st)).
    - intros Hn. apply Hq, (owned_unique q rel x Hx). by apply owned_make_doc_ids in Hn. }
  destruct err as [e|]; [destruct (_is_embedding_auth_error e)|]; exact Hvs.
Qed.

Lemma ingest_loop_vs_other E force files st st' eo q x :
  ingest_loop E force files st = (st', eo) ->
  wf_manifest (st_tracked st) -> owned q x -> q ∉ map sf_rel_path files ->
  (x ∈ st_vs st' <-> x ∈ st_vs st).
Proof.
  revert st. induction files as [|g gs IH]; intros st Hl Hwf Hx Hq; simpl in Hl, Hq.
  - by injection Hl as <- _.
  - apply not_elem_of_cons in Hq as [Hqg Hq].
    pose proof (ingest_file_vs_other E force st g q x Hwf Hx Hqg) as Hstep.
    destruct (ingest_file E force st g) as [st1 [e|]] eqn:Hf.
    + injection Hl as <- _. exact Hstep.
    + rewrite <- Hstep. exact (IH st1 Hl (ingest_file_wf E _ _ _ _ _ Hf Hwf) Hx Hq).
Qed.

Lemma ingest_loop_skipped_grows E force files st st' :
  ingest_loop E force files st = (st', None) -> exists a, st_skipped st' = st_skipped st ++ a.
Proof.
  revert st. induction files as [|g gs IH]; intros st Hl; simpl in Hl.
  - injection Hl as <-. exists []. by rewrite app_nil_r.
  - destruct (ingest_file E force st g) as [st1 [e|]] eqn:Hf; [discriminate|].
    destruct (IH st1 Hl) as [a Ha].
    destruct (ingest_file_outcome E force st g st1 Hf) as [_ [(_ & Hs & _)|(_ & _ & _ & _ & Hs & _)]];
      rewrite Ha, Hs; [exists ([sf_rel_path g] ++ a)|exists a]; by rewrite <- ?app_assoc.
Qed.

(** A completed run whose step on [f] reports it as skipped, leaves its
    chunks and the collection alone and records [e1] for it: the run's
    response and saved state show exactly that. *)
Lemma run_with_skipped_step E force pre f post p p' r e0 e1 :
  NoDup (map sf_rel_path (pre ++ f :: post)) ->
  wf_manifest (p_manifest p) ->
  p_manifest p !! sf_rel_path f = Some e0 ->
  (forall st, wf_manifest (st_tracked st) -> st_tracked st !! sf_rel_path f = Some e0 ->
     (forall x, owned (sf_rel_path f) x -> (x ∈ st_vs st <-> x ∈ p_vs p)) ->
     exists st1, ingest_file E force st f = (st1, None) /\
       st_skipped st1 = st_skipped st ++ [sf_rel_path f] /\
       st_tracked st1 !! sf_rel_path f = Some e1 /\
       st_chunks st1 !! sf_rel_path f = st_chunks st !! sf_rel_path f /\
       st_vs st1 = st_vs st) ->
  ingest_documents E force (pre ++ f :: post) p = (p', inl r) ->
  sf_rel_path f ∈ skipped_files r /\ (sf_rel_path f ∉ indexed_files r) /\
  p_manifest p' !! sf_rel_path f = Some e1 /\
  p_chunk_store p' !! sf_rel_path f = p_chunk_store p !! sf_rel_path f /\
  (forall x, owned (sf_rel_path f) x -> (x ∈ p_vs p' <-> x ∈ p_vs p)).
Proof.
  intros Hnd Hwf He0 Hstep Hrun.
  set (rel := sf_rel_path f) in *.
  pose proof Hnd as Hnd'. rewrite fmap_app in Hnd'. apply NoDup_app in Hnd' as (_ & Hdisj & Hnd2).
  simpl in Hnd2. apply NoDup_cons in Hnd2 as [Hpost _].
  assert (Hpre : rel ∉ map sf_rel_path pre) by (intros Hin; apply (Hdisj rel Hin); by left).
  apply ingest_documents_inl in Hrun as (st & Hl & -> & ->).
  pose proof (ingest_loop_accounting E force _ _ st Hl Hnd) as [Hperm _].
  pose proof (ingest_loop_wf E force _ _ st None Hl Hwf) as Hwfst.
  rewrite ingest_loop_app in Hl.
  destruct (ingest_loop E force pre (initial_state p)) as [stA [e|]] eqn:HA; [discriminate|].
  pose proof (ingest_loop_wf E force _ _ stA None HA Hwf) as HwfA.
  destruct (ingest_loop_frame E force pre _ stA None rel HA Hpre) as [HtA HcA].
  destruct (Hstep stA HwfA (eq_trans HtA He0)) as (stB & HB & HsB & HtB & HcB & HvB).
  { intros x Hx. exact (ingest_loop_vs_other E force pre _ stA None rel x HA Hwf Hx Hpre). }
  simpl in Hl. rewrite HB in Hl.
  pose proof (ingest_file_wf E force stA f stB None HB HwfA) as HwfB.
  destruct (ingest_loop_frame E force post stB st None rel Hl Hpost) as [Ht Hc].
  destruct (ingest_loop_skipped_grows E force post stB st Hl) as [a Ha].
  assert (Hnm : rel ∉ missing_paths st).
  { apply (scanned_not_missing E force (pre ++ f :: post) p st rel); [|rewrite fmap_app; set_solver].
    rewrite ingest_loop_app, HA. simpl. by rewrite HB. }
  destruct (remove_stale_frame E (missing_paths st) st rel Hnm) as [Ht' Hc'].
  destruct (remove_stale_counters E (missing_paths st) st) as (Hi' & _ & Hs').
  assert (Hsk : rel ∈ st_skipped (remove_stale E (missing_paths st) st)).
  { rewrite Hs', Ha, HsB. set_solver. }
  cbn [skipped_files indexed_files p_manifest p_chunk_store p_vs].
  split_and!.
  - exact Hsk.
  - intros Hin.
    assert (Hnd3 : NoDup (st_indexed st ++ st_skipped st)).
    { rewrite Hperm. simpl. exact Hnd. }
    apply NoDup_app in Hnd3 as (_ & Hd & _).
    rewrite Hi' in Hin. rewrite Hs' in Hsk. exact (Hd rel Hin Hsk).
  - by rewrite Ht', Ht.
  - rewrite Hc', Hc, HcB, HcA. done.
  - intros x Hx.
    rewrite (remove_stale_vs_frame E (missing_paths st) st x).
    + rewrite (ingest_loop_vs_other E force post stB st None rel x Hl HwfB Hx Hpost), HvB.
      exact (ingest_loop_vs_other E force pre _ stA None rel x HA Hwf Hx Hpre).
    + intros q Hq Hxq. apply Hnm.
      by rewrite <- (owned_unique q rel x (wf_manifest_prev _ _ _ Hwfst Hxq) Hx).
Qed.

(** A file that cannot be read is reported as skipped, with its new hash
    recorded against its previous vector ids, while its stored chunks and
    its vectors are left as they were.  A later unforced run from the
    state the first one saved then reports the file as skipped again
    without reading it, as long as one of its first three previous vectors
    is stored and the bytes are the same, even if the file has become
    readable: its old chunks and ids stay until the file changes or a
    forced run. *)
Theorem unreadable_file_freezes_index (E1 E2 : ingest_env) (files : list source_file)
    (f : source_file) (p p1 : persisted) (r1 : ingest_response) (h0 : string) (ids : list string) :
  NoDup (map sf_rel_path files) -> f ∈ files ->
  wf_manifest (p_manifest p) ->
  p_manifest p !! sf_rel_path f = Some {| e_sha256 := h0; e_doc_ids := ids |} ->
  existsb (fun i => bool_decide (i ∈ p_vs p)) (take 3 ids) = true ->
  env_extract E1 f = None ->
  ingest_documents E1 false files p = (p1, inl r1) ->
  env_sha256 E2 = env_sha256 E1 ->
  (forall sample, env_fault E2 (CallGet sample) = None) ->
  sf_rel_path f ∈ skipped_files r1 /\ (sf_rel_path f ∉ indexed_files r1) /\
  p_manifest p1 !! sf_rel_path f = Some {| e_sha256 := _sha256_file E1 f; e_doc_ids := ids |} /\
  p_chunk_store p1 !! sf_rel_path f = p_chunk_store p !! sf_rel_path f /\
  (forall x, x ∈ ids -> (x ∈ p_vs p1 <-> x ∈ p_vs p)) /\
  forall p2 r2, ingest_documents E2 false files p1 = (p2, inl r2) ->
    sf_rel_path f ∈ skipped_files r2 /\ (sf_rel_path f ∉ indexed_files r2) /\
    p_manifest p2 !! sf_rel_path f = Some {| e_sha256 := _sha256_file E1 f; e_doc_ids := ids |} /\
    p_chunk_store p2 !! sf_rel_path f = p_chunk_store p !! sf_rel_path f.
Proof.
  intros Hnd Hf Hwf Htr Hvs Hx Hrun1 Hsha Hget.
  set (rel := sf_rel_path f) in *.
  assert (Hown : forall x, x ∈ ids -> owned rel x) by (intros x; apply (Hwf rel _ Htr)).
  apply list_elem_of_split in Hf as (pre & post & ->).
  set (e1 := {| e_sha256 := _sha256_file E1 f; e_doc_ids := ids |}).
  (* the first run *)
  destruct (run_with_skipped_step E1 false pre f post p p1 r1 _ e1 Hnd Hwf Htr) as (Hs1 & Hi1 & Ht1 & Hc1 & Hv1);
    [|exact Hrun1|].
  { intros st _ Hst _. subst rel. unfold ingest_file. cbn [st_tracked st_vs discover].
    destruct (skip_unchanged E1 false (st_tracked st) (st_vs st) (sf_rel_path f) (_sha256_file E1 f)) eqn:Hs.
    - assert (h0 = _sha256_file E1 f) as ->.
      { destruct (decide (h0 = _sha256_file E1 f)) as [|Hne]; [done|].
        unfold skip_unchanged in Hs. rewrite Hst in Hs. simpl in Hs.
        rewrite bool_decide_eq_false_2 in Hs by congruence. done. }
      eexists. split; [reflexivity|]. simpl. split_and!; done.
    - unfold extract_and_process. rewrite Hx. cbn [st_tracked discover]. rewrite Hst.
      eexists. split; [reflexivity|]. simpl. rewrite lookup_insert_eq. split_and!; done. }
  split_and!; [exact Hs1 | exact Hi1 | exact Ht1 | exact Hc1 | |].
  { intros x Hx'. exact (Hv1 x (Hown x Hx')). }
  (* the second run *)
  intros p2 r2 Hrun2.
  assert (Hh : _sha256_file E2 f = _sha256_file E1 f) by (unfold _sha256_file; by rewrite Hsha).
  destruct (run_with_skipped_step E2 false pre f post p1 p2 r2 e1 e1 Hnd
              (ingest_documents_wf E1 false _ p p1 _ Hwf Hrun1) Ht1)
    as (Hs2 & Hi2 & Ht2 & Hc2 & _); [|exact Hrun2|].
  { intros st _ Hst Hvst. subst rel.
    exists (mark_skipped (discover st (sf_rel_path f)) (sf_rel_path f) None None).
    split; [|simpl; split_and!; done].
    unfold ingest_file. cbn [st_tracked st_vs discover].
    rewrite Hh, (skip_unchanged_stored E2 _ _ _ _ ids Hget Hst); [done|].
    rewrite <- Hvs. apply existsb_ext_in. intros y Hy. apply bool_decide_ext.
    assert (Hyi : y ∈ ids) by (apply list_elem_of_In, (subseteq_take 3 ids) in Hy; exact Hy).
    rewrite (Hvst y (Hown y Hyi)). exact (Hv1 y (Hown y Hyi)). }
  split_and!; [exact Hs2 | exact Hi2 | exact Ht2 | exact (eq_trans Hc2 Hc1)].
Qed.

(** [a.txt] was indexed as ["hi"] and now holds ["ho"]; it cannot be read
    in the first run.  The second run, where it is readable, still skips it
    and keeps the chunk of ["hi"]. *)
Lemma unreadable_file_freezes_index_witness :
  exists p1 r1, ingest_documents unreadable_env false [file_a_v2] indexed_a_v1 = (p1, inl r1) /\
  "ingest/a.txt" ∈ skipped_files r1 /\ ("ingest/a.txt" ∉ indexed_files r1) /\
  p_manifest p1 !! "ingest/a.txt" = Some {| e_sha256 := "686f"; e_doc_ids := [id_a1] |} /\
  p_chunk_store p1 !! "ingest/a.txt" = Some (make_chunk_recs "6869" ["hi"]) /\
  (forall x, x ∈ [id_a1] -> (x ∈ p_vs p1 <-> x ∈ p_vs indexed_a_v1)) /\
  forall p2 r2, ingest_documents (test_env no_fault) false [file_a_v2] p1 = (p2, inl r2) ->
    "ingest/a.txt" ∈ skipped_files r2 /\ ("ingest/a.txt" ∉ indexed_files r2) /\
    p_manifest p2 !! "ingest/a.txt" = Some {| e_sha256 := "686f"; e_doc_ids := [id_a1] |} /\
    p_chunk_store p2 !! "ingest/a.txt" = Some (make_chunk_recs "6869" ["hi"]).
Proof.
  destruct (ingest_documents unreadable_env false [file_a_v2] indexed_a_v1) as [p1 [r1|e]] eqn:Hrun1.
  2:{ vm_compute in Hrun1. discriminate. }
  exists p1, r1. split; [reflexivity|].
  apply (unreadable_file_freezes_index unreadable_env (test_env no_fault) [file_a_v2] file_a_v2
           indexed_a_v1 p1 r1 "6869" [id_a1]).
  - repeat constructor; set_solver.
  - by apply list_elem_of_singleton.
  - intros q e He.
    change (({[ "ingest/a.txt" := {| e_sha256 := "6869"; e_doc_ids := [id_a1] |} ]} : gmap string entry) !! q = Some e) in He.
    apply lookup_singleton_Some in He as [<- <-].
    intros x Hx. apply list_elem_of_singleton in Hx as ->.
    exists "6869", 0. split; reflexivity.
  - reflexivity.
  - vm_compute. reflexivity.
  - reflexivity.
  - exact Hrun1.
  - reflexivity.
  - intros; reflexivity.
Defined.

Lemma replace_newlines_length s : String.length (replace_newlines s) = String.length s.
Proof. induction s as [|c s IH]; simpl; [done|]. by rewrite IH. Qed.

Lemma replace_newlines_no_newline s : no_newline (replace_newlines s) = true.
Proof.
  induction s as [|c s IH]; simpl; [done|]. rewrite IH, andb_true_r.
  destruct (Ascii.eqb c "010"%char) eqn:Hc; [done|]. by rewrite Hc.
Qed.

(* ------------------------------------------------------------------ *)
(** ** UTF-8 text *)

Ltac byte_cases :=
  repeat match goal with
  | |- context [Z.ltb (byte_val ?c) ?n] =>
      first [rewrite (proj2 (Z.ltb_lt (byte_val c) n)) by lia
            | rewrite (proj2 (Z.ltb_ge (byte_val c) n)) by lia]
  | |- context [Z.leb ?n (byte_val ?c)] =>
      first [rewrite (proj2 (Z.leb_le n (byte_val c))) by lia
            | rewrite (proj2 (Z.leb_gt n (byte_val c))) by lia]
  | H : context [Z.ltb (byte_val ?c) ?n] |- _ =>
      first [rewrite (proj2 (Z.ltb_lt (byte_val c) n)) in H by lia
            | rewrite (proj2 (Z.ltb_ge (byte_val c) n)) in H by lia]
  end.

Lemma byte_val_range c : (0 <= byte_val c < 256)%Z.
Proof. unfold byte_val. pose proof (nat_ascii_bounded c). lia. Qed.

Lemma is_cont_range c : is_cont c = true -> (128 <= byte_val c < 192)%Z.
Proof. unfold is_cont. rewrite andb_true_iff, Z.leb_le, Z.ltb_lt. lia. Qed.

Lemma is_cont_lead c : ((byte_val c < 128) \/ (192 <= byte_val c))%Z -> is_cont c = false.
Proof. intros H. unfold is_cont. destruct H; byte_cases; [done|]. by rewrite andb_false_r. Qed.

Lemma utf8_take_cont n c s : is_cont c = true -> utf8_take n (String c s) = String c (utf8_take n s).
Proof. intros H. cbn [utf8_take]. by rewrite H. Qed.

Lemma utf8_take_lead n c s : is_cont c = false ->
  utf8_take n (String c s) = match n with O => EmptyString | S n' => String c (utf8_take n' s) end.
Proof. intros H. cbn [utf8_take]. by rewrite H. Qed.

Ltac wf_cont :=
  repeat match goal with
  | H : (_ && _) = true |- _ => apply andb_true_iff in H as [? ?]
  | H : is_cont ?c = true |- _ =>
      rewrite (utf8_take_cont _ c _ H); pose proof (is_cont_range c H); clear H
  end.

(** On well-formed text, [utf8_take n] is [s[:n]]: it keeps exactly the
    first [n] code points. *)
Lemma utf8_take_decode n s :
  utf8_wf s = true -> utf8_decode (utf8_take n s) = firstn n (utf8_decode s).
Proof.
  remember (String.length s) as k eqn:Hk. revert n s Hk.
  induction k as [k IH] using lt_wf_ind. intros n [|c s1] Hk Hwf; [by destruct n|].
  pose proof (byte_val_range c).
  cbn [utf8_wf] in Hwf. cbn [utf8_decode].
  destruct (Z.lt_ge_cases (byte_val c) 128).
  { byte_cases. rewrite utf8_take_lead by (apply is_cont_lead; lia).
    destruct n as [|n]; [done|]. cbn [utf8_decode]. byte_cases.
    simpl firstn. f_equal. apply (IH (String.length s1)); simpl in Hk; auto; lia. }
  destruct (Z.lt_ge_cases (byte_val c) 192); byte_cases; [done|].
  rewrite utf8_take_lead by (apply is_cont_lead; lia).
  destruct (Z.lt_ge_cases (byte_val c) 224); byte_cases.
  { destruct s1 as [|c1 s2]; [done|]. 
    destruct n as [|n]; [done|]. wf_cont. cbn [utf8_decode]. byte_cases.
    simpl firstn. f_equal. apply (IH (String.length s2)); simpl in Hk; auto; lia. }
  destruct (Z.lt_ge_cases (byte_val c) 240); byte_cases.
  { destruct s1 as [|c1 [|c2 s3]]; [done|done|]. 
    destruct n as [|n]; [done|]. wf_cont. cbn [utf8_decode]. byte_cases.
    simpl firstn. f_equal. apply (IH (String.length s3)); simpl in Hk; auto; lia. }
  destruct (Z.lt_ge_cases (byte_val c) 248); byte_cases; [|done].
  destruct s1 as [|c1 [|c2 [|c3 s4]]]; [done|done|done|]. 
  destruct n as [|n]; [done|]. wf_cont. cbn [utf8_decode]. byte_cases.
  simpl firstn. f_equal. apply (IH (String.length s4)); simpl in Hk; auto; lia.
Qed.

Lemma utf8_wf_take n s : utf8_wf s = true -> utf8_wf (utf8_take n s) = true.
Proof.
  remember (String.length s) as k eqn:Hk. revert n s Hk.
  induction k as [k IH] using lt_wf_ind. intros n [|c s1] Hk Hwf; [by destruct n|].
  pose proof (byte_val_range c).
  cbn [utf8_wf] in Hwf.
  destruct (Z.lt_ge_cases (byte_val c) 128).
  { byte_cases. rewrite utf8_take_lead by (apply is_cont_lead; lia).
    destruct n as [|n]; [done|]. cbn [utf8_wf]. byte_cases.
    apply (IH (String.length s1)); simpl in Hk; auto; lia. }
  destruct (Z.lt_ge_cases (byte_val c) 192); byte_cases; [done|].
  rewrite utf8_take_lead by (apply is_cont_lead; lia).
  destruct (Z.lt_ge_cases (byte_val c) 224); byte_cases.
  { destruct s1 as [|c1 s2]; [done|].
    destruct n as [|n]; [done|].
    apply andb_true_iff in Hwf as [Hc1 Hwf].
    rewrite (utf8_take_cont _ c1 _ Hc1). cbn [utf8_wf]. byte_cases.
    rewrite Hc1. apply (IH (String.length s2)); simpl in Hk; auto; lia. }
  destruct (Z.lt_ge_cases (byte_val c) 240); byte_cases.
  { destruct s1 as [|c1 [|c2 s3]]; [done|done|].
    destruct n as [|n]; [done|].
    apply andb_true_iff in Hwf as [Hwf Hw]. apply andb_true_iff in Hwf as [Hc1 Hc2].
    rewrite (utf8_take_cont _ c1 _ Hc1), (utf8_take_cont _ c2 _ Hc2). cbn [utf8_wf]. byte_cases.
    rewrite Hc1, Hc2. apply (IH (String.length s3)); simpl in Hk; auto; lia. }
  destruct (Z.lt_ge_cases (byte_val c) 248); byte_cases; [|done].
  destruct s1 as [|c1 [|c2 [|c3 s4]]]; [done|done|done|].
  destruct n as [|n]; [done|].
  apply andb_true_iff in Hwf as [Hwf Hw]. apply andb_true_iff in Hwf as [Hwf Hc3].
  apply andb_true_iff in Hwf as [Hc1 Hc2].
  rewrite (utf8_take_cont _ c1 _ Hc1), (utf8_take_cont _ c2 _ Hc2), (utf8_take_cont _ c3 _ Hc3).
  cbn [utf8_wf]. byte_cases.
  rewrite Hc1, Hc2, Hc3. apply (IH (String.length s4)); simpl in Hk; auto; lia.
Qed.




Lemma nl_keep c : byte_val c <> 10%Z -> (if Ascii.eqb c "010"%char then " "%char else c) = c.
Proof. intros H. destruct (Ascii.eqb_spec c "010"%char) as [->|]; [done|done]. Qed.

Lemma nl_ascii c : (byte_val (if Ascii.eqb c "010"%char then " "%char else c) < 128)%Z <-> (byte_val c < 128)%Z.
Proof. destruct (Ascii.eqb_spec c "010"%char) as [->|]; [done|done]. Qed.

(** Replacing line feeds by spaces keeps the number of code points. *)
Lemma replace_newlines_decode_length s :
  utf8_wf s = true -> length (utf8_decode (replace_newlines s)) = length (utf8_decode s).
Proof.
  remember (String.length s) as k eqn:Hk. revert s Hk.
  induction k as [k IH] using lt_wf_ind. intros [|c s1] Hk Hwf; [done|].
  pose proof (byte_val_range c).
  cbn [utf8_wf] in Hwf. cbn [replace_newlines utf8_decode].
  destruct (Z.lt_ge_cases (byte_val c) 128).
  { byte_cases. pose proof (proj2 (nl_ascii c) H0) as H1.
    rewrite (proj2 (Z.ltb_lt _ 192)) by lia. cbn [length]. f_equal.
    apply (IH (String.length s1)); simpl in Hk; auto; lia. }
  rewrite (nl_keep c) by lia.
  destruct (Z.lt_ge_cases (byte_val c) 192); byte_cases; [done|].
  destruct (Z.lt_ge_cases (byte_val c) 224); byte_cases.
  { destruct s1 as [|c1 s2]; [done|].
    apply andb_true_iff in Hwf as [Hc1 Hwf]. apply is_cont_range in Hc1.
    cbn [replace_newlines utf8_decode length]. f_equal.
    apply (IH (String.length s2)); simpl in Hk; auto; lia. }
  destruct (Z.lt_ge_cases (byte_val c) 240); byte_cases.
  { destruct s1 as [|c1 [|c2 s3]]; [done|done|].
    apply andb_true_iff in Hwf as [Hwf Hw]. apply andb_true_iff in Hwf as [Hc1 Hc2].
    apply is_cont_range in Hc1, Hc2.
    cbn [replace_newlines utf8_decode length]. f_equal.
    apply (IH (String.length s3)); simpl in Hk; auto; lia. }
  destruct (Z.lt_ge_cases (byte_val c) 248); byte_cases; [|done].
  destruct s1 as [|c1 [|c2 [|c3 s4]]]; [done|done|done|].
  apply andb_true_iff in Hwf as [Hwf Hw]. apply andb_true_iff in Hwf as [Hwf Hc3].
  apply andb_true_iff in Hwf as [Hc1 Hc2].
  apply is_cont_range in Hc1, Hc2, Hc3.
  cbn [replace_newlines utf8_decode length].
  f_equal. apply (IH (String.length s4)); simpl in Hk; auto; lia.
Qed.

(** Every source [stream_chat_answer] reports has a preview of
    [min 180 (len(page_content))] characters (code points, as Python's
    [[:180]] counts them) with no line break, whatever the length and
    layout of the chunk it comes from. *)
Theorem source_preview_bounded (r : Document * float) :
  utf8_wf (page_content r.1) = true ->
  length (utf8_decode (si_preview (source_of r))) =
    Nat.min 180 (length (utf8_decode (page_content r.1))) /\
  no_newline (si_preview (source_of r)) = true.
Proof.
  intros Hwf. unfold source_of. cbn [si_preview].
  rewrite replace_newlines_decode_length by (apply utf8_wf_take; done).
  rewrite utf8_take_decode by done. rewrite length_take.
  split; [done | apply replace_newlines_no_newline].
Qed.

(** A chunk of 100 [é] (200 bytes): its preview keeps all 100 characters. *)
Lemma source_preview_bounded_witness :
  let r := ({| page_content := String.concat "" (List.repeat (String (ascii_of_nat 195) (String (ascii_of_nat 169) "")) 100);
               md_source := "notes.md"; md_file_sha256 := "00"; md_chunk_index := 0 |}, 0%float) in
  String.length (page_content r.1) = 200 /\
  length (utf8_decode (si_preview (source_of r))) = 100 /\
  no_newline (si_preview (source_of r)) = true.
Proof.
  intros r. split; [vm_compute; reflexivity|].
  destruct (source_preview_bounded r) as [Hl Hn]; [vm_compute; reflexivity|].
  split; [rewrite Hl; vm_compute; reflexivity | exact Hn].
Defined.
(* ------------------------------------------------------------------ *)
(** ** Server-sent events *)

Lemma read_json_escape_char c x :
  read_json_chars (json_escape_char c +:+ x) =
  match read_json_chars x with Some (t, rest) => Some (String c t, rest) | None => None end.
Proof. destruct c as [[] [] [] [] [] [] [] []]; reflexivity. Qed.

Lemma read_json_escape s rest :
  read_json_chars (json_escape s +:+ String dq rest) = Some (s, rest).
Proof.
  induction s as [|c s IH]; [reflexivity|].
  cbn [json_escape]. rewrite sapp_assoc, read_json_escape_char, IH. done.
Qed.

Lemma read_json_str s rest : read_json_string (json_str s +:+ rest) = Some (s, rest).
Proof.
  unfold json_str. simpl. rewrite sapp_assoc. apply read_json_escape.
Qed.

Lemma no_newline_app a b : no_newline (a +:+ b) = no_newline a && no_newline b.
Proof. induction a as [|c a IH]; simpl; [done|]. by rewrite IH, andb_assoc. Qed.

Lemma json_escape_char_no_newline c : no_newline (json_escape_char c) = true.
Proof. destruct c as [[] [] [] [] [] [] [] []]; reflexivity. Qed.

Lemma json_str_no_newline s : no_newline (json_str s) = true.
Proof.
  unfold json_str. simpl. rewrite no_newline_app. simpl. rewrite andb_true_r.
  induction s as [|c s IH]; [done|]. simpl. by rewrite no_newline_app, json_escape_char_no_newline, IH.
Qed.

Lemma py_split_nl a b : no_newline a = true -> py_split "010"%char (a +:+ String "010"%char b) = a :: py_split "010"%char b.
Proof.
  induction a as [|c a IH]; intros Ha; simpl; [done|].
  simpl in Ha. apply andb_true_iff in Ha as [Hc Ha]. apply negb_true_iff in Hc.
  rewrite Hc, IH by done. done.
Qed.

(** A text frame of the [/chat] stream is exactly an [event:] line and a
    [data:] line followed by a blank line, whatever the text holds (line
    breaks, quotes, control characters): the JSON on the [data:] line
    reads back as the text. *)
Theorem sse_text_frame_parses event text :
  no_newline event = true ->
  exists data,
    py_split "010"%char (_to_sse_text event text) = ["event: " +:+ event; "data: " +:+ data; ""; ""] /\
    read_json_text_obj data = Some text.
Proof.
  intros Hev.
  exists ("{" +:+ json_str "text" +:+ ": " +:+ json_str text +:+ "}").
  split.
  - unfold _to_sse_text.
    rewrite <- (sapp_assoc "event: " event).
    change (nl +:+ ?y) with (String "010"%char y).
    rewrite py_split_nl by (simpl; exact Hev).
    set (d := "{" +:+ json_str "text" +:+ ": " +:+ json_str text +:+ "}").
    assert (Hd : "data: " +:+ "{" +:+ json_str "text" +:+ ": " +:+ json_str text +:+ "}" +:+ nl +:+ nl
                 = ("data: " +:+ d) +:+ String "010"%char nl).
    { subst d. rewrite !sapp_assoc. reflexivity. }
    rewrite Hd, py_split_nl.
    + reflexivity.
    + subst d. rewrite !no_newline_app, !json_str_no_newline. reflexivity.
  - change ("{" +:+ ?x) with (String "{"%char x).
    change (": " +:+ ?x) with (String ":"%char (String " "%char x)).
    unfold read_json_text_obj. rewrite read_json_str.
    rewrite (read_json_str text "}"). rewrite !bool_decide_eq_true_2 by done. reflexivity.
Qed.

Lemma sse_text_frame_parses_witness :
  exists data,
    py_split "010"%char (_to_sse_text "token" ("a" +:+ nl +:+ nl +:+ "event: done")) =
      ["event: " +:+ "token"; "data: " +:+ data; ""; ""] /\
    read_json_text_obj data = Some ("a" +:+ nl +:+ nl +:+ "event: done").
Proof. apply sse_text_frame_parses. reflexivity. Defined.
